(** * Word-graph endpoint: a shallow embedding of [backend/word_graph.py]

    The module has some start-up code that resolves the API credential and
    one request handler, [generate_word_graph].  The handler builds a prompt,
    calls the generation service, cuts a JSON object out of the answer,
    infers correlations between the decoded entries and shapes a node/edge
    payload; every exception raised on the way is turned into a 500 answer.

    Python values decoded from JSON are modelled by the type [json]; the
    dynamic checks of the interpreter (subscripting, iteration, attribute
    lookup) are written out and return in the error monad [result].  A
    character of the model is an [ascii].  What the code prints is left
    out.

    The interpreter and the libraries the module calls are parameters of the
    development: [str.lower], [repr], [json.loads], the generation service
    and the outcome of [request.get_json]. *)

From Stdlib Require Import ZArith Ascii String List.
From stdpp Require Import base option list strings pretty gmap.

Local Open Scope Z_scope.

(** ** Python values *)

(** What [json.loads] can return.  A dict is listed by its items in
    insertion order, one item per key. *)
#[warnings="-register-all"]
Inductive json : Type :=
| JNull
| JBool (b : bool)
| JInt (n : Z)
| JFloat (literal : string)
| JStr (s : string)
| JArr (items : list json)
| JObj (items : list (string * json)).

(** The exceptions the handler can see.  [ValueError] and [KeyError] carry
    what [str(e)] is built from; the text of a [TypeError] or an
    [AttributeError] is chosen by the interpreter and not modelled;
    [HTTPException] stands for what [request.get_json] raises itself. *)
Inductive exn : Type :=
| ValueError (msg : string)
| KeyError (key : string)
| TypeError
| AttributeError
| HTTPException (msg : string).

Inductive result (A : Type) : Type :=
| Ok (a : A)
| Raise (e : exn).
Arguments Ok {A} a.
Arguments Raise {A} e.

Global Instance result_ret : MRet result := λ A a, Ok a.
Global Instance result_bind : MBind result := λ A B f m,
  match m with
  | Ok a => f a
  | Raise e => Raise e
  end.

Definition is_ok {A} (r : result A) : bool :=
  match r with Ok _ => true | Raise _ => false end.

(** [for x in xs: acc = f(acc, x)], stopping at the first exception. *)
Fixpoint foldM {A B} (f : B → A → result B) (acc : B) (xs : list A) : result B :=
  match xs with
  | [] => Ok acc
  | x :: xs' => acc' ← f acc x; foldM f acc' xs'
  end.

(** [[f(x) for x in xs]], stopping at the first exception. *)
Fixpoint mapM {A B} (f : A → result B) (xs : list A) : result (list B) :=
  match xs with
  | [] => Ok []
  | x :: xs' => y ← f x; ys ← mapM f xs'; Ok (y :: ys)
  end.

(** [enumerate(xs, start)] and [enumerate(xs)] *)
Fixpoint enumerate_from {A} (start : nat) (xs : list A) : list (nat * A) :=
  match xs with
  | [] => []
  | x :: xs' => (start, x) :: enumerate_from (S start) xs'
  end.

Definition enumerate {A} (xs : list A) : list (nat * A) := enumerate_from 0 xs.

(** ** Interpreter operations on decoded values *)

Fixpoint assoc (k : string) (items : list (string * json)) : option json :=
  match items with
  | [] => None
  | (k', v) :: rest => if String.eqb k k' then Some v else assoc k rest
  end.

(** [v[k]] for a string key [k]. *)
Definition getitem (v : json) (k : string) : result json :=
  match v with
  | JObj items =>
      match assoc k items with
      | Some x => Ok x
      | None => Raise (KeyError k)
      end
  | _ => Raise TypeError
  end.

(** [v.get(k, default)] *)
Definition dict_get (v : json) (k : string) (dflt : json) : result json :=
  match v with
  | JObj items => Ok (default dflt (assoc k items))
  | _ => Raise AttributeError
  end.

Definition chars (s : string) : list json :=
  (λ c, JStr (String c EmptyString)) <$> list_ascii_of_string s.

(** What a [for] loop (or [enumerate]) sees of a value: the items of a list,
    the characters of a string, the keys of a dict. *)
Definition py_iter (v : json) : result (list json) :=
  match v with
  | JArr items => Ok items
  | JStr s => Ok (chars s)
  | JObj items => Ok (JStr <$> items.*1)
  | _ => Raise TypeError
  end.

(** [len(v)] *)
Definition py_len (v : json) : result nat :=
  match v with
  | JArr items => Ok (length items)
  | JStr s => Ok (String.length s)
  | JObj items => Ok (length items)
  | _ => Raise TypeError
  end.

(** [k in v] for a dict and a string key. *)
Definition has_key (k : string) (v : json) : bool :=
  match v with
  | JObj items => bool_decide (is_Some (assoc k items))
  | _ => false
  end.

(** [str(v)], as an f-string uses it, on the values whose text does not
    depend on the interpreter's [repr]; floats and containers go through
    [repr]. *)
Definition format (repr : json → string) (v : json) : string :=
  match v with
  | JStr s => s
  | JInt n => pretty n
  | JNull => "None"
  | JBool true => "True"
  | JBool false => "False"
  | _ => repr v
  end.

(** Truth value of what [os.getenv] returns: [None] and the empty string
    are false. *)
Definition truthy (o : option string) : bool :=
  match o with
  | Some s => negb (String.eqb s "")
  | None => false
  end.

(** ** The pattern of line 77

    [re.search(r'\{.*\}', text, re.DOTALL)]: a backtracking matcher for
    patterns made of literal characters and of [.*], which under [DOTALL]
    takes any character and is greedy. *)
Inductive re_item : Type :=
| Lit (c : ascii)
| AnyStar.

(** Length of the match of [p] at the start of [s].  [.*] first tries to
    take one more character and falls back to the rest of the pattern. *)
Fixpoint match_here (p : list re_item) (s : string) : option nat :=
  match p with
  | [] => Some 0%nat
  | Lit c :: p' =>
      match s with
      | String a s' => if Ascii.eqb a c then S <$> match_here p' s' else None
      | EmptyString => None
      end
  | AnyStar :: p' =>
      (fix star (s : string) : option nat :=
         match s with
         | EmptyString => match_here p' EmptyString
         | String _ s' =>
             match star s' with
             | Some n => Some (S n)
             | None => match_here p' s
             end
         end) s
  end.

(** [re.search]: the match at the leftmost position that has one. *)
Fixpoint re_search (p : list re_item) (s : string) : option string :=
  match match_here p s with
  | Some n => Some (String.substring 0 n s)
  | None =>
      match s with
      | EmptyString => None
      | String _ s' => re_search p s'
      end
  end.

Definition brace_pattern : list re_item := [Lit "{"; AnyStar; Lit "}"].

(** [json_match.group()] when there is a match. *)
Definition json_match (text : string) : option string :=
  re_search brace_pattern text.

(** ** The graph payload *)

Record correlation : Type := Correlation {
  source : string;
  target : string;
  explanation : string
}.

Record node_data : Type := NodeData {
  label : json;
  summary : json;
  description : json;
  relatedTopics : json;
  examples : json
}.

Record position : Type := Position { x : Z; y : Z }.

Record node : Type := Node {
  node_id : string;
  data : node_data;
  pos : position;
  node_type : string;
  sourcePosition : string;
  targetPosition : string
}.

Record edge_style : Type := EdgeStyle { stroke : string; strokeWidth : Z }.

Record edge : Type := Edge {
  edge_id : string;
  edge_source : string;
  edge_target : string;
  animated : bool;
  style : edge_style;
  edge_explanation : string
}.

(** What the handler returns: [jsonify({'nodes': .., 'edges': ..})] with the
    default status, or [jsonify({'error': str(e)}), 500]. *)
Inductive body : Type :=
| Graph (nodes : list node) (edges : list edge)
| ErrorBody (error : exn).

Record response : Type := Response { payload : body; status : Z }.

(** ** Start-up code (lines 12 to 23) *)

Record process : Type := Process {
  environ : gmap string string;
  configured_key : option string
}.

Definition startup (env : gmap string string) : process :=
  let api_key := env !! "GOOGLE_API_KEY" in
  if negb (truthy api_key) then
    let api_key := env !! "GEMINI_API_KEY" in
    match api_key with
    | Some k =>
        if truthy api_key
        then Process (<["GOOGLE_API_KEY" := k]> env) api_key
        else Process env api_key
    | None => Process env api_key
    end
  else Process env api_key.

(** ** The prompt (lines 45 to 63) *)

Definition nl : string := String (ascii_of_nat 10) EmptyString.
Definition dq : string := String (ascii_of_nat 34) EmptyString.
Definition quoted (s : string) : string := dq +:+ s +:+ dq.

Definition prompt_lines (num_words topic : string) : list string :=
  [ "Generate " +:+ num_words +:+ " key concepts or terms related to "
      +:+ topic +:+ ".";
    "        For each term, provide:";
    "        1. A brief summary (1-2 sentences)";
    "        2. A detailed description (2-3 paragraphs)";
    "        3. 2-3 related concepts (IMPORTANT: make sure these are actual terms that could appear as other nodes)";
    "        4. 2-3 practical examples or use cases";
    "        ";
    "        Format the response as a JSON object with the following structure:";
    "        {";
    "            " +:+ quoted "words" +:+ ": [";
    "                {";
    "                    " +:+ quoted "term" +:+ ": " +:+ quoted "term name" +:+ ",";
    "                    " +:+ quoted "summary" +:+ ": " +:+ quoted "brief summary" +:+ ",";
    "                    " +:+ quoted "description" +:+ ": "
      +:+ quoted "detailed description" +:+ ",";
    "                    " +:+ quoted "related_concepts" +:+ ": ["
      +:+ quoted "concept1" +:+ ", " +:+ quoted "concept2" +:+ "],";
    "                    " +:+ quoted "examples" +:+ ": ["
      +:+ quoted "example1" +:+ ", " +:+ quoted "example2" +:+ "]";
    "                }";
    "            ]";
    "        }" ].

(** ** The collaborators *)

(** What [model.generate_content(prompt)] followed by [response.text] comes
    to: a text ([Text ""] when it is empty or missing), or an exception [e]
    with [str(e) = msg]. *)
Inductive generation : Type :=
| Text (t : string)
| Fails (msg : string).

(** What [json.loads] comes to: a value, or a [JSONDecodeError] [e] with
    [str(e) = msg]. *)
Inductive decoded : Type :=
| Decoded (v : json)
| DecodeError (msg : string).

Definition node_name (i : nat) : string := "node-" +:+ pretty i.
Definition edge_name (i : nat) : string := "edge-" +:+ pretty i.

(** ** Reading the specification

    Section 4.3 describes the extracted span by positions: it runs from the
    first opening brace of the text to its last closing brace. *)

(** [s.find(c)] *)
Fixpoint find_first (c : ascii) (s : string) : option nat :=
  match s with
  | EmptyString => None
  | String a s' => if Ascii.eqb a c then Some 0%nat else S <$> find_first c s'
  end.

(** [s.rfind(c)] *)
Fixpoint find_last (c : ascii) (s : string) : option nat :=
  match s with
  | EmptyString => None
  | String a s' =>
      match find_last c s' with
      | Some j => Some (S j)
      | None => if Ascii.eqb a c then Some 0%nat else None
      end
  end.

Definition first_to_last (text : string) : option string :=
  match find_first "{" text, find_last "}" text with
  | Some i, Some j =>
      if (i <? j)%nat then Some (String.substring i (j + 1 - i) text) else None
  | _, _ => None
  end.

(** [needle in hay] *)
Fixpoint contains (needle hay : string) : bool :=
  String.prefix needle hay ||
  match hay with
  | EmptyString => false
  | String _ hay' => contains needle hay'
  end.

(** ** Stand-ins for the collaborators, for the examples *)

Definition lower_char (c : ascii) : ascii :=
  let n := nat_of_ascii c in
  if ((65 <=? n) && (n <=? 90))%nat then ascii_of_nat (n + 32) else c.

(** [str.lower] on ASCII text. *)
Fixpoint ascii_lower (s : string) : string :=
  match s with
  | EmptyString => EmptyString
  | String c s' => String (lower_char c) (ascii_lower s')
  end.

(** No example formats a float or a container. *)
Definition no_repr (_ : json) : string := "".

(** A generation service that answers [text] whatever the key and prompt. *)
Definition answers (text : string) (_ : option string) (_ : string) : generation :=
  Text text.

(** A decoder that knows the documents of [table] only. *)
Definition loads_table (table : list (string * json)) (s : string) : decoded :=
  match assoc s table with
  | Some v => Decoded v
  | None => DecodeError "Expecting value"
  end.

Definition strs (l : list string) : json := JArr (JStr <$> l).

(** An entry with the five keys of the prompt. *)
Definition entry (term summary description : string)
    (related_concepts examples : list string) : json :=
  JObj [("term", JStr term); ("summary", JStr summary);
        ("description", JStr description);
        ("related_concepts", strs related_concepts);
        ("examples", strs examples)].

(** An entry reduced to the two keys correlation inference reads. *)
Definition bare_entry (term : string) (related_concepts : list string) : json :=
  JObj [("term", JStr term); ("related_concepts", strs related_concepts)].


(** The reply of section 8, property 5, the entries elided as there. *)
Definition example_span : string := "{" +:+ quoted "words" +:+ ":[...]}".
Definition example_text : string :=
  "Here is the result: " +:+ example_span +:+ " Thanks!".


(** A run of the handler: the key is set, the service answers
    [example_text], which decodes to two entries; the first lists the second
    and, in another case, itself. *)
Definition example_entries : list json :=
  [entry "A" "first" "the first one" ["B"; "a"] ["x"];
   entry "B" "second" "the second one" [] []].

Definition example_loads : string → decoded :=
  loads_table [(example_span, JObj [("words", JArr example_entries)])].

Definition example_process : process :=
  startup {[ "GOOGLE_API_KEY" := "secret" ]}.

Definition example_nodes : list node :=
  [Node "node-0"
     (NodeData (JStr "A") (JStr "first") (JStr "the first one")
        (strs ["B"; "a"]) (strs ["x"]))
     (Position 0 0) "wordNode" "right" "left";
   Node "node-1"
     (NodeData (JStr "B") (JStr "second") (JStr "the second one")
        (strs []) (strs []))
     (Position 250 0) "wordNode" "right" "left"].

Definition example_edges : list edge :=
  [Edge "edge-0" "node-0" "node-1" true (EdgeStyle "#3b82f6" 2)
     "A includes B as a related concept";
   Edge "edge-1" "node-0" "node-1" true (EdgeStyle "#3b82f6" 2)
     "A includes B as a related concept"].

(** The document of section 8, property 6. *)
Definition notwords_text : string := "{" +:+ quoted "notwords" +:+ ": []}".

Definition notwords_loads : string → decoded :=
  loads_table [(notwords_text, JObj [("notwords", JArr [])])].

(** Three entries, the last two with the same term up to case. *)
Definition shared_term_entries : list json :=
  [bare_entry "Go" ["RUST"]; bare_entry "Rust" []; bare_entry "rust" []].

(** An entry without the [related_concepts] key. *)
Definition unrelated_entry : json :=
  JObj [("term", JStr "B"); ("summary", JStr "second");
        ("description", JStr "the second one"); ("examples", strs [])].


(** A generation service that raises an exception with message [msg]. *)
Definition raises (msg : string) (_ : option string) (_ : string) : generation :=
  Fails msg.

(** Two entries, the second listing the term of the first in lower case. *)
Definition mixed_case_entries : list json :=
  [bare_entry "Concept X" []; bare_entry "Other" ["concept x"]].


Section Handler.

(** [str.lower] *)
Variable lower : string → string.
(** [repr] of a float, a list or a dict *)
Variable repr : json → string.
(** The generation service, by the key given to [genai.configure]. *)
Variable generate_content : option string → string → generation.
(** [json.loads] *)
Variable json_loads : string → decoded.

(** [v.lower()] *)
Definition str_lower (v : json) : result string :=
  match v with
  | JStr s => Ok (lower s)
  | _ => Raise AttributeError
  end.

Definition prompt (num_words topic : json) : string :=
  String.concat nl (prompt_lines (format repr num_words) (format repr topic)).

(** Lines 66 to 72: any exception of the [try] block, the one of line 69
    included, is raised again as a [ValueError]. *)
Definition call_model (p : process) (prompt : string) : result string :=
  let attempt :=
    match generate_content (configured_key p) prompt with
    | Text t => if String.eqb t "" then inr "Empty response from Gemini" else inl t
    | Fails msg => inr msg
    end in
  match attempt with
  | inl t => Ok t
  | inr msg => Raise (ValueError ("Error calling Gemini API: " +:+ msg))
  end.

Definition is_dict (v : json) : bool :=
  match v with JObj _ => true | _ => false end.

(** Lines 75 to 89. *)
Definition parse_response (text : string) : result json :=
  match json_match text with
  | None => Raise (ValueError "Could not find JSON in response")
  | Some json_string =>
      match json_loads json_string with
      | DecodeError msg => Raise (ValueError ("Failed to parse JSON: " +:+ msg))
      | Decoded words_data =>
          if negb (is_dict words_data) || negb (has_key "words" words_data)
          then Raise (ValueError "Invalid JSON structure")
          else Ok words_data
      end
  end.

(** Line 95. *)
Definition term_to_index (words : list json) : result (gmap string nat) :=
  foldM (λ (m : gmap string nat) '(i, word),
           t ← getitem word "term";
           k ← str_lower t;
           Ok (<[k := i]> m))
        ∅ (enumerate words).

(** Lines 101 to 112: the scan of [word1]'s own related concepts. *)
Definition forward_scan (tti : gmap string nat) (i : nat) (word1 : json)
    (correlations : list correlation) : result (list correlation) :=
  rc ← dict_get word1 "related_concepts" (JArr []);
  rcs ← py_iter rc;
  foldM (λ acc related_concept,
           related_concept_lower ← str_lower related_concept;
           match tti !! related_concept_lower with
           | Some j =>
               if bool_decide (i ≠ j) then
                 t ← getitem word1 "term";
                 Ok (acc ++ [Correlation (node_name i) (node_name j)
                               (format repr t +:+ " includes "
                                  +:+ format repr related_concept
                                  +:+ " as a related concept")])
               else Ok acc
           | None => Ok acc
           end)
        correlations rcs.

(** Line 117: [any(word1['term'].lower() == related.lower() for related in rs)];
    the generator stops at the first element that matches. *)
Fixpoint any_mentions (word1 : json) (rs : list json) : result bool :=
  match rs with
  | [] => Ok false
  | related :: rest =>
      t ← getitem word1 "term";
      a ← str_lower t;
      b ← str_lower related;
      if String.eqb a b then Ok true else any_mentions word1 rest
  end.

(** Lines 115 to 122: the scan of the other entries' related concepts. *)
Definition reverse_scan (words : list json) (i : nat) (word1 : json)
    (correlations : list correlation) : result (list correlation) :=
  foldM (λ acc '(j, word2),
           if bool_decide (i ≠ j) then
             rc ← dict_get word2 "related_concepts" (JArr []);
             rs ← py_iter rc;
             hit ← any_mentions word1 rs;
             if hit : bool then
               t2 ← getitem word2 "term";
               t1 ← getitem word1 "term";
               Ok (acc ++ [Correlation (node_name j) (node_name i)
                             (format repr t2 +:+ " includes "
                                +:+ format repr t1
                                +:+ " as a related concept")])
             else Ok acc
           else Ok acc)
        correlations (enumerate words).

(** Lines 98 to 122. *)
Definition correlate (tti : gmap string nat) (words : list json)
    : result (list correlation) :=
  foldM (λ acc '(i, word1),
           acc' ← forward_scan tti i word1 acc;
           reverse_scan words i word1 acc')
        [] (enumerate words).

(** Lines 126 to 139. *)
Definition make_node (i : nat) (word : json) : result node :=
  l ← getitem word "term";
  s ← getitem word "summary";
  d ← getitem word "description";
  r ← getitem word "related_concepts";
  e ← getitem word "examples";
  Ok (Node (node_name i) (NodeData l s d r e)
           (Position (Z.of_nat i * 250) 0) "wordNode" "right" "left").

(** Lines 144 to 151. *)
Definition make_edge (i : nat) (corr : correlation) : edge :=
  Edge (edge_name i) (source corr) (target corr) true
       (EdgeStyle "#3b82f6" 2) (explanation corr).

(** Lines 91 to 153, from the decoded entries on. *)
Definition build_graph (words : json) : result (list node * list edge) :=
  _ ← py_len words;
  entries ← py_iter words;
  tti ← term_to_index entries;
  correlations ← correlate tti entries;
  nodes ← mapM (λ '(i, word), make_node i word) (enumerate entries);
  Ok (nodes, (λ '(i, corr), make_edge i corr) <$> enumerate correlations).

(** Lines 31 to 72, up to the text of the reply.  [get_json] is what
    [request.get_json()] comes to, [JNull] standing for [None]. *)
Definition model_text (p : process) (get_json : result json) : result string :=
  data ← get_json;
  topic ← dict_get data "topic" (JStr "Technology");
  num_words ← dict_get data "num_words" (JInt 5);
  let api_key := environ p !! "GOOGLE_API_KEY" in
  if negb (truthy api_key)
  then Raise (ValueError "GOOGLE_API_KEY environment variable not set")
  else call_model p (prompt num_words topic).

(** The body of the [try] block, lines 31 to 158. *)
Definition handle (p : process) (get_json : result json)
    : result (list node * list edge) :=
  text ← model_text p get_json;
  words_data ← parse_response text;
  words ← getitem words_data "words";
  build_graph words.

(** The handler with its [except Exception] clause, lines 160 to 162. *)
Definition generate_word_graph (p : process) (get_json : result json)
    : response :=
  match handle p get_json with
  | Ok (nodes, edges) => Response (Graph nodes edges) 200
  | Raise e => Response (ErrorBody e) 500
  end.

(** ** What the scans read of an entry *)

(** The key an entry is filed under in [term_to_index]. *)
Definition term_key (word : json) : option string :=
  match getitem word "term" with
  | Ok (JStr s) => Some (lower s)
  | _ => None
  end.

(** The text of [word['term']] in an explanation. *)
Definition term_text (word : json) : string :=
  match getitem word "term" with
  | Ok t => format repr t
  | Raise _ => ""
  end.

(** What a loop over [word.get('related_concepts', [])] visits. *)
Definition related_items (word : json) : list json :=
  match dict_get word "related_concepts" (JArr []) ≫= py_iter with
  | Ok rs => rs
  | Raise _ => []
  end.

Definition concept_key (c : json) : option string :=
  match c with
  | JStr s => Some (lower s)
  | _ => None
  end.

(** The term of [word1] is, up to case, one of the concepts [rs]. *)
Definition mentions (word1 : json) (rs : list json) : bool :=
  existsb (λ r, match term_key word1, concept_key r with
                | Some a, Some b => String.eqb a b
                | _, _ => false
                end) rs.

Definition includes (a b : string) : string :=
  a +:+ " includes " +:+ b +:+ " as a related concept".

(** The correlations entry [i] adds from its own related concepts. *)
Definition forward_emitted (tti : gmap string nat) (i : nat) (word1 : json)
    : list correlation :=
  c ← related_items word1;
  match concept_key c ≫= (tti !!.) with
  | Some j =>
      if bool_decide (i ≠ j)
      then [Correlation (node_name i) (node_name j)
              (includes (term_text word1) (format repr c))]
      else []
  | None => []
  end.

(** The correlations entry [i] adds from the other entries' related
    concepts: one for each [j ≠ i] whose concepts mention entry [i]. *)
Definition reverse_emitted (words : list json) (i : nat) (word1 : json)
    : list correlation :=
  '(j, word2) ← enumerate words;
  if bool_decide (i ≠ j) && mentions word1 (related_items word2)
  then [Correlation (node_name j) (node_name i)
          (includes (term_text word2) (term_text word1))]
  else [].

(** The reverse scan in the words of the specification, section 4.4 step 3:
    for [j ≠ i], the correlation [(j, i)] when entry [j]'s term appears in
    entry [i]'s related concepts. *)
Definition reverse_claimed (words : list json) (i : nat) (word1 : json)
    : list correlation :=
  '(j, word2) ← enumerate words;
  if bool_decide (i ≠ j) && mentions word2 (related_items word1)
  then [Correlation (node_name j) (node_name i)
          (includes (term_text word2) (term_text word1))]
  else [].

(** Everything correlation inference emits, in order. *)
Definition emitted (tti : gmap string nat) (words : list json)
    : list correlation :=
  '(i, word1) ← enumerate words;
  forward_emitted tti i word1 ++ reverse_emitted words i word1.

(** The index of the last entry filed under [k], counting from [n]. *)
Fixpoint last_index_from (k : string) (n : nat) (words : list json)
    : option nat :=
  match words with
  | [] => None
  | w :: ws =>
      match last_index_from k (S n) ws with
      | Some j => Some j
      | None => if bool_decide (term_key w = Some k) then Some n else None
      end
  end.

Definition last_index (k : string) (words : list json) : option nat :=
  last_index_from k 0 words.

Definition is_str (v : json) : bool :=
  match v with JStr _ => true | _ => false end.

(** An entry the scans can read: a dict whose term is a string and whose
    related concepts, when present, are strings. *)
Definition scannable (word : json) : bool :=
  bool_decide (is_Some (term_key word)) &&
  match dict_get word "related_concepts" (JArr []) ≫= py_iter with
  | Ok rs => forallb is_str rs
  | Raise _ => false
  end.

Definition entry_keys : list string :=
  ["term"; "summary"; "description"; "related_concepts"; "examples"].

(** An entry node assembly can read. *)
Definition complete (word : json) : bool :=
  forallb (λ k, has_key k word) entry_keys.


(** * Properties *)

(** ** The error monad and its loops *)

Lemma bind_Ok_inv {A B} (m : result A) (f : A → result B) (b : B) :
  m ≫= f = Ok b → ∃ a, m = Ok a ∧ f a = Ok b.
Proof. destruct m as [a|e]; simpl; [eauto | discriminate]. Qed.

Ltac inv_bind H :=
  let a := fresh "v" in
  let Ha := fresh "Hv" in
  apply bind_Ok_inv in H; destruct H as (a & Ha & H).

(** A loop whose every step appends [g x] to the accumulator appends the
    concatenation of the [g x]. *)
Lemma foldM_appends {A C} (f : list C → A → result (list C)) (g : A → list C) xs :
  (∀ acc x acc', x ∈ xs → f acc x = Ok acc' → acc' = acc ++ g x) →
  ∀ acc r, foldM f acc xs = Ok r → r = acc ++ (xs ≫= g).
Proof.
  induction xs as [|x xs IH]; intros Hstep acc r H; simpl in *.
  - injection H as <-. by rewrite app_nil_r.
  - inv_bind H. apply Hstep in Hv; [|left]. subst v.
    apply IH in H; [|intros; eapply Hstep; [by right|done]].
    by rewrite H, app_assoc.
Qed.

(** Such a loop completes as soon as every step does. *)
Lemma foldM_total {A B} (f : B → A → result B) xs :
  (∀ acc x, x ∈ xs → is_ok (f acc x) = true) →
  ∀ acc, is_ok (foldM f acc xs) = true.
Proof.
  induction xs as [|x xs IH]; intros Hstep acc; simpl; [done|].
  specialize (Hstep acc x (list_elem_of_here _ _)) as Hx.
  destruct (f acc x) as [acc'|e]; simpl in *; [|done].
  apply IH. intros; apply Hstep. by right.
Qed.

Lemma is_ok_true {A} (r : result A) : is_ok r = true → ∃ a, r = Ok a.
Proof. destruct r; [eauto | discriminate]. Qed.

Lemma mapM_length {A B} (f : A → result B) xs ys :
  mapM f xs = Ok ys → length ys = length xs.
Proof.
  revert ys; induction xs as [|x xs IH]; intros ys H; simpl in *.
  - by injection H as <-.
  - inv_bind H. inv_bind H. injection H as <-. simpl. f_equal. by apply IH.
Qed.

Lemma mapM_lookup {A B} (f : A → result B) xs ys k x :
  mapM f xs = Ok ys → xs !! k = Some x → ∃ y, ys !! k = Some y ∧ f x = Ok y.
Proof.
  revert ys k; induction xs as [|x0 xs IH]; intros ys k H Hk; simpl in *.
  - discriminate.
  - inv_bind H. inv_bind H. injection H as <-.
    destruct k as [|k]; simpl in *.
    + injection Hk as ->. eauto.
    + eapply IH; eauto.
Qed.

Lemma enumerate_from_lookup {A} (xs : list A) n k x :
  xs !! k = Some x → enumerate_from n xs !! k = Some (n + k, x)%nat.
Proof.
  revert n k; induction xs as [|y ys IH]; intros n k H; [done|].
  destruct k as [|k]; simpl in *.
  - injection H as ->. by rewrite Nat.add_0_r.
  - rewrite (IH (S n) k H). do 2 f_equal. lia.
Qed.

Lemma enumerate_from_elem {A} (xs : list A) n j x :
  (j, x) ∈ enumerate_from n xs ↔ (n ≤ j)%nat ∧ xs !! (j - n)%nat = Some x.
Proof.
  revert n; induction xs as [|y ys IH]; intros n; simpl.
  - rewrite elem_of_nil. split; [done|]. intros [_ H]. by rewrite lookup_nil in H.
  - rewrite elem_of_cons, IH. split.
    + intros [[= -> ->]|[Hle Hl]].
      * split; [lia|]. by rewrite Nat.sub_diag.
      * split; [lia|]. by replace (j - n)%nat with (S (j - S n)) by lia.
    + intros [Hle Hl]. destruct (decide (j = n)) as [->|Hne].
      * left. rewrite Nat.sub_diag in Hl. simpl in Hl. by injection Hl as ->.
      * right. split; [lia|].
        by replace (j - n)%nat with (S (j - S n)) in Hl by lia.
Qed.

Lemma enumerate_lookup {A} (xs : list A) k x :
  xs !! k = Some x → enumerate xs !! k = Some (k, x).
Proof. apply (enumerate_from_lookup xs 0). Qed.

Lemma enumerate_elem {A} (xs : list A) k x :
  (k, x) ∈ enumerate xs ↔ xs !! k = Some x.
Proof.
  unfold enumerate. rewrite enumerate_from_elem, Nat.sub_0_r.
  split; [by intros [_ ?] | intros; split; [lia|done]].
Qed.

Lemma length_enumerate_from {A} (xs : list A) n :
  length (enumerate_from n xs) = length xs.
Proof. revert n; induction xs; intros n; simpl; [done | by rewrite IHxs]. Qed.

Lemma enumerate_snd {A} (xs : list A) n : (enumerate_from n xs).*2 = xs.
Proof. revert n; induction xs; intros n; simpl; [done | by rewrite IHxs]. Qed.

(** ** The two scans *)

Lemma str_lower_Ok v k :
  str_lower v = Ok k → ∃ s, v = JStr s ∧ k = lower s.
Proof. destruct v; simpl; try discriminate. intros [= <-]. eauto. Qed.

Lemma term_key_Ok word t k :
  getitem word "term" = Ok t → str_lower t = Ok k → term_key word = Some k.
Proof.
  intros Ht Hk. apply str_lower_Ok in Hk as (s & -> & ->).
  unfold term_key. by rewrite Ht.
Qed.

Lemma term_text_Ok word t :
  getitem word "term" = Ok t → term_text word = format repr t.
Proof. intros Ht. unfold term_text. by rewrite Ht. Qed.

Lemma related_items_Ok word rc rs :
  dict_get word "related_concepts" (JArr []) = Ok rc → py_iter rc = Ok rs →
  related_items word = rs.
Proof. intros H1 H2. unfold related_items. rewrite H1. simpl. by rewrite H2. Qed.

(** The forward scan of an entry appends [forward_emitted]. *)
Lemma forward_scan_emits tti i word1 acc acc' :
  forward_scan tti i word1 acc = Ok acc' →
  acc' = acc ++ forward_emitted tti i word1.
Proof.
  unfold forward_scan, forward_emitted. intros H.
  inv_bind H. inv_bind H. rewrite (related_items_Ok _ _ _ Hv Hv0).
  revert H. apply foldM_appends. clear. intros acc c acc' _ H.
  inv_bind H. apply str_lower_Ok in Hv as (s & -> & ->). simpl.
  destruct (tti !! lower s) as [j|]; simpl.
  - case_bool_decide.
    + inv_bind H. injection H as <-. by rewrite (term_text_Ok _ _ Hv).
    + injection H as <-. by rewrite app_nil_r.
  - injection H as <-. by rewrite app_nil_r.
Qed.

(** [any] on line 117 answers whether the entry is mentioned. *)
Lemma any_mentions_Ok word1 rs b :
  any_mentions word1 rs = Ok b → b = mentions word1 rs.
Proof.
  induction rs as [|r rs IH]; simpl; intros H.
  - by injection H as <-.
  - inv_bind H. inv_bind H. inv_bind H.
    rewrite (term_key_Ok _ _ _ Hv Hv0).
    apply str_lower_Ok in Hv1 as (s & -> & ->). simpl.
    destruct (String.eqb v0 (lower s)); simpl.
    + by injection H as <-.
    + by apply IH.
Qed.

(** The reverse scan of an entry appends [reverse_emitted]. *)
Lemma reverse_scan_emits words i word1 acc acc' :
  reverse_scan words i word1 acc = Ok acc' →
  acc' = acc ++ reverse_emitted words i word1.
Proof.
  unfold reverse_scan, reverse_emitted.
  apply foldM_appends. intros acc0 [j word2] acc1 _ H.
  case_bool_decide; simpl.
  - inv_bind H. inv_bind H. inv_bind H.
    rewrite (related_items_Ok _ _ _ Hv Hv0).
    rewrite <- (any_mentions_Ok _ _ _ Hv1).
    destruct v1.
    + inv_bind H. inv_bind H. injection H as <-.
      by rewrite (term_text_Ok _ _ Hv2), (term_text_Ok _ _ Hv3).
    + injection H as <-. by rewrite app_nil_r.
  - injection H as <-. by rewrite app_nil_r.
Qed.

(** Correlation inference returns [emitted]. *)
Lemma correlate_emits tti words cs :
  correlate tti words = Ok cs → cs = emitted tti words.
Proof.
  unfold correlate, emitted. intros H.
  apply (foldM_appends _ (λ '(i, word1),
           forward_emitted tti i word1 ++ reverse_emitted words i word1)) in H.
  - exact H.
  - intros acc [i word1] acc' _ Hs. inv_bind Hs.
    apply forward_scan_emits in Hv. apply reverse_scan_emits in Hs.
    subst. by rewrite app_assoc.
Qed.


(** ** The term mapping of line 95 *)

Lemma term_to_index_from n words (m0 m : gmap string nat) :
  foldM (λ (m : gmap string nat) '(i, word),
           t ← getitem word "term";
           k ← str_lower t;
           Ok (<[k := i]> m)) m0 (enumerate_from n words) = Ok m →
  ∀ k, m !! k = match last_index_from k n words with
                | Some j => Some j
                | None => m0 !! k
                end.
Proof.
  revert n m0; induction words as [|w ws IH]; intros n m0 H k; simpl in *.
  - by injection H as <-.
  - inv_bind H. inv_bind Hv. inv_bind Hv. injection Hv as <-.
    rewrite (IH _ _ H k). destruct (last_index_from k (S n) ws); [done|].
    rewrite (term_key_Ok _ _ _ Hv0 Hv1). case_bool_decide as Hk.
    + injection Hk as ->. apply lookup_insert_eq.
    + apply lookup_insert_ne. congruence.
Qed.

(** The mapping sends a key to the last index filed under it. *)
Lemma term_to_index_last words tti k :
  term_to_index words = Ok tti → tti !! k = last_index k words.
Proof.
  intros H. rewrite (term_to_index_from 0 words ∅ tti H k).
  unfold last_index. by destruct (last_index_from k 0 words).
Qed.

Lemma last_index_from_None k n words :
  last_index_from k n words = None →
  ∀ w, w ∈ words → term_key w ≠ Some k.
Proof.
  revert n; induction words as [|w0 ws IH]; intros n H w Hw; simpl in *.
  - by apply elem_of_nil in Hw.
  - destruct (last_index_from k (S n) ws) eqn:E; [done|].
    case_bool_decide as Hk; [done|].
    apply elem_of_cons in Hw as [->|Hw]; [done | by eapply IH].
Qed.

Lemma last_index_from_Some k n words j :
  last_index_from k n words = Some j →
  (n ≤ j)%nat ∧
  (∃ w, words !! (j - n)%nat = Some w ∧ term_key w = Some k) ∧
  ∀ j' w', (j < j')%nat → words !! (j' - n)%nat = Some w' → term_key w' ≠ Some k.
Proof.
  revert n; induction words as [|w ws IH]; intros n H; simpl in *; [done|].
  destruct (last_index_from k (S n) ws) as [j0|] eqn:E.
  - injection H as ->. destruct (IH _ E) as (Hle & (w0 & Hw0 & Hk0) & Hlast).
    split; [lia|]. split.
    + exists w0. by replace (j - n)%nat with (S (j - S n)) by lia.
    + intros j' w' Hlt Hl. apply (Hlast j' w' Hlt).
      by replace (j' - n)%nat with (S (j' - S n)) in Hl by lia.
  - case_bool_decide as Hk; [|done]. injection H as ->.
    split; [lia|]. split.
    + exists w. by rewrite Nat.sub_diag.
    + intros j' w' Hlt Hl.
      replace (j' - j)%nat with (S (j' - S j)) in Hl by lia. simpl in Hl.
      apply (last_index_from_None k (S j) ws E), (list_elem_of_lookup_2 _ _ _ Hl).
Qed.


(** ** Entries the scans can read *)

Lemma term_key_Some word k :
  term_key word = Some k → ∃ s, getitem word "term" = Ok (JStr s) ∧ k = lower s.
Proof.
  unfold term_key. destruct (getitem word "term") as [[]|]; try discriminate.
  intros [= <-]. eauto.
Qed.

Lemma scannable_inv word :
  scannable word = true →
  (∃ s, getitem word "term" = Ok (JStr s)) ∧
  ∃ rc rs, dict_get word "related_concepts" (JArr []) = Ok rc ∧
           py_iter rc = Ok rs ∧ forallb is_str rs = true.
Proof.
  unfold scannable. rewrite andb_true_iff, bool_decide_eq_true.
  intros [[k Hk] Hr]. split.
  - apply term_key_Some in Hk as (s & Hs & _). eauto.
  - destruct (dict_get word "related_concepts" (JArr [])) as [rc|]; [|done].
    simpl in Hr. destruct (py_iter rc) as [rs|] eqn:E; [|done]. eauto.
Qed.

Lemma is_str_inv v : is_str v = true → ∃ s, v = JStr s.
Proof. destruct v; try discriminate. eauto. Qed.

Lemma term_to_index_total words :
  forallb scannable words = true → is_ok (term_to_index words) = true.
Proof.
  intros Hall. apply foldM_total. intros m [i w] Hin.
  assert (w ∈ words) as Hw.
  { apply list_elem_of_fmap_2 with (f := snd) in Hin.
    unfold enumerate in Hin. by rewrite enumerate_snd in Hin. }
  rewrite forallb_forall in Hall.
  apply list_elem_of_In, Hall, scannable_inv in Hw as [[s Hs] _].
  by rewrite Hs.
Qed.

Lemma forward_scan_total tti i word1 acc :
  scannable word1 = true → is_ok (forward_scan tti i word1 acc) = true.
Proof.
  intros ([s Hs] & rc & rs & Hrc & Hrs & Hstr)%scannable_inv.
  unfold forward_scan. rewrite Hrc. simpl. rewrite Hrs. simpl.
  apply foldM_total. intros acc0 c Hc.
  rewrite forallb_forall in Hstr.
  apply list_elem_of_In, Hstr, is_str_inv in Hc as [s' ->]. simpl.
  destruct (tti !! lower s'); [|done].
  case_bool_decide; [|done]. by rewrite Hs.
Qed.

Lemma any_mentions_total word1 rs :
  scannable word1 = true → forallb is_str rs = true →
  is_ok (any_mentions word1 rs) = true.
Proof.
  intros ([s Hs] & _)%scannable_inv.
  induction rs as [|r rs IH]; simpl; [done|].
  rewrite andb_true_iff. intros [[s' ->]%is_str_inv Hrs].
  rewrite Hs. simpl. destruct (String.eqb (lower s) (lower s')); [done|auto].
Qed.

Lemma reverse_scan_total words i word1 acc :
  forallb scannable words = true → scannable word1 = true →
  is_ok (reverse_scan words i word1 acc) = true.
Proof.
  intros Hall H1. apply foldM_total. intros acc0 [j word2] Hin.
  case_bool_decide; [|done].
  assert (scannable word2 = true) as H2.
  { rewrite forallb_forall in Hall. apply Hall, list_elem_of_In.
    apply list_elem_of_fmap_2 with (f := snd) in Hin.
    unfold enumerate in Hin. by rewrite enumerate_snd in Hin. }
  destruct (scannable_inv _ H2) as ([s2 Hs2] & rc & rs & Hrc & Hrs & Hstr).
  destruct (scannable_inv _ H1) as ([s1 Hs1] & _).
  rewrite Hrc. simpl. rewrite Hrs. simpl.
  destruct (is_ok_true _ (any_mentions_total _ _ H1 Hstr)) as [b ->]. simpl.
  destruct b; [|done]. by rewrite Hs2, Hs1.
Qed.

(** Correlation inference completes on entries the scans can read. *)
Lemma correlate_total tti words :
  forallb scannable words = true → is_ok (correlate tti words) = true.
Proof.
  intros Hall. apply foldM_total. intros acc [i word1] Hin.
  assert (scannable word1 = true) as H1.
  { rewrite forallb_forall in Hall. apply Hall, list_elem_of_In.
    apply list_elem_of_fmap_2 with (f := snd) in Hin.
    unfold enumerate in Hin. by rewrite enumerate_snd in Hin. }
  destruct (is_ok_true _ (forward_scan_total tti i word1 acc H1)) as [acc' ->].
  simpl. by apply reverse_scan_total.
Qed.

Lemma correlate_scannable tti words :
  forallb scannable words = true → correlate tti words = Ok (emitted tti words).
Proof.
  intros Hall. destruct (is_ok_true _ (correlate_total tti words Hall)) as [cs H].
  by rewrite H, (correlate_emits _ _ _ H).
Qed.


(** ** Taking a successful run apart *)

Lemma build_graph_Ok words nodes edges :
  build_graph words = Ok (nodes, edges) →
  ∃ entries tti cs,
    py_iter words = Ok entries ∧
    term_to_index entries = Ok tti ∧
    correlate tti entries = Ok cs ∧
    mapM (λ '(i, word), make_node i word) (enumerate entries) = Ok nodes ∧
    edges = (λ '(i, corr), make_edge i corr) <$> enumerate cs.
Proof.
  unfold build_graph. intros H.
  inv_bind H. inv_bind H. inv_bind H. inv_bind H. inv_bind H.
  injection H as <- <-. eauto 10.
Qed.

Lemma generate_Graph p get_json nodes edges st :
  generate_word_graph p get_json = Response (Graph nodes edges) st →
  st = 200 ∧
  ∃ text words_data words,
    model_text p get_json = Ok text ∧
    parse_response text = Ok words_data ∧
    getitem words_data "words" = Ok words ∧
    build_graph words = Ok (nodes, edges).
Proof.
  unfold generate_word_graph.
  destruct (handle p get_json) as [[ns es]|e] eqn:H; [|discriminate].
  intros [= -> -> <-]. split; [done|].
  unfold handle in H. inv_bind H. inv_bind H. inv_bind H. eauto 10.
Qed.

Lemma generate_Raise p get_json e :
  handle p get_json = Raise e →
  generate_word_graph p get_json = Response (ErrorBody e) 500.
Proof. intros H. unfold generate_word_graph. by rewrite H. Qed.

Lemma node_name_inj i j : node_name i = node_name j → i = j.
Proof. unfold node_name. intros H. by apply (inj _), (inj pretty) in H. Qed.

Lemma edges_of_correlations (cs : list correlation) e :
  e ∈ (λ '(i, corr), make_edge i corr) <$> enumerate cs →
  ∃ c, c ∈ cs ∧ edge_source e = source c ∧ edge_target e = target c ∧
       edge_explanation e = explanation c.
Proof.
  intros ([i c] & -> & Hin)%list_elem_of_fmap.
  apply enumerate_elem, list_elem_of_lookup_2 in Hin. eauto.
Qed.

Lemma reverse_emitted_elem words i word1 c :
  c ∈ reverse_emitted words i word1 ↔
  ∃ j word2, words !! j = Some word2 ∧ i ≠ j ∧
    mentions word1 (related_items word2) = true ∧
    c = Correlation (node_name j) (node_name i)
          (includes (term_text word2) (term_text word1)).
Proof.
  unfold reverse_emitted. rewrite list_elem_of_bind. split.
  - intros ([j word2] & Hc & Hin). apply enumerate_elem in Hin.
    destruct (bool_decide (i ≠ j)) eqn:Hij; simpl in Hc;
      [|by apply elem_of_nil in Hc].
    destruct (mentions word1 (related_items word2)) eqn:Hm;
      [|by apply elem_of_nil in Hc].
    apply list_elem_of_singleton in Hc. apply bool_decide_eq_true in Hij.
    eauto 10.
  - intros (j & word2 & Hl & Hij & Hm & ->). exists (j, word2).
    split; [|by apply enumerate_elem].
    rewrite Hm, bool_decide_eq_true_2 by done. simpl. apply list_elem_of_here.
Qed.

Lemma forward_emitted_elem tti i word1 c :
  c ∈ forward_emitted tti i word1 ↔
  ∃ s j, JStr s ∈ related_items word1 ∧ tti !! lower s = Some j ∧ i ≠ j ∧
    c = Correlation (node_name i) (node_name j) (includes (term_text word1) s).
Proof.
  unfold forward_emitted. rewrite list_elem_of_bind. split.
  - intros (r & Hc & Hin).
    destruct r; simpl in Hc; try by apply elem_of_nil in Hc.
    destruct (tti !! lower s) as [j|] eqn:Hj; [|by apply elem_of_nil in Hc].
    case_bool_decide; [|by apply elem_of_nil in Hc].
    apply list_elem_of_singleton in Hc. eauto 10.
  - intros (s & j & Hin & Hj & Hij & ->). exists (JStr s). split; [|done].
    simpl. rewrite Hj, bool_decide_eq_true_2 by done. apply list_elem_of_here.
Qed.

(** ** The claims on correlation inference *)

(** C1, as amended.  For every entry list and every entry [i], the reverse
    scan goes through the entries [j] in index order and appends, exactly
    for the [j ≠ i] whose related concepts contain the term of entry [i] up
    to case, the correlation from [j] to [i] explained as
    [<term_j> includes <term_i> as a related concept]; the scans of the
    successive entries [i] follow one another in index order.  The scan
    completes on entries whose term and related concepts are strings. *)
Theorem reverse_scan_emits_mentions words i word1 acc :
  words !! i = Some word1 →
  (forallb scannable words = true →
   reverse_scan words i word1 acc = Ok (acc ++ reverse_emitted words i word1)) ∧
  (∀ acc', reverse_scan words i word1 acc = Ok acc' →
           acc' = acc ++ reverse_emitted words i word1) ∧
  (∀ c, c ∈ reverse_emitted words i word1 ↔
        ∃ j word2, words !! j = Some word2 ∧ i ≠ j ∧
          mentions word1 (related_items word2) = true ∧
          c = Correlation (node_name j) (node_name i)
                (includes (term_text word2) (term_text word1))) ∧
  (∀ tti cs, correlate tti words = Ok cs → cs = emitted tti words).
Proof.
  intros Hi. split; [|split; [|split]].
  - intros Hall.
    assert (scannable word1 = true) as H1.
    { rewrite forallb_forall in Hall.
      by eapply Hall, list_elem_of_In, list_elem_of_lookup_2. }
    destruct (is_ok_true _ (reverse_scan_total words i word1 acc Hall H1))
      as [acc' H].
    by rewrite H, (reverse_scan_emits _ _ _ _ _ H).
  - apply reverse_scan_emits.
  - apply reverse_emitted_elem.
  - intros tti cs. apply correlate_emits.
Qed.


Lemma emitted_distinct tti words c :
  c ∈ emitted tti words → source c ≠ target c.
Proof.
  unfold emitted. intros ([i word1] & Hc & _)%list_elem_of_bind.
  apply elem_of_app in Hc as [Hc|Hc].
  - apply forward_emitted_elem in Hc as (s & j & _ & _ & Hij & ->).
    simpl. by intros ?%node_name_inj.
  - apply reverse_emitted_elem in Hc as (j & word2 & _ & Hij & _ & ->).
    simpl. by intros ?%node_name_inj.
Qed.

(** C3.  No correlation that inference returns has its source equal to its
    target, whatever the entries are (one may well list its own term among
    its related concepts), and so no edge of a success payload has. *)
Theorem no_self_loops tti words cs p get_json nodes edges st :
  (correlate tti words = Ok cs → ∀ c, c ∈ cs → source c ≠ target c) ∧
  (generate_word_graph p get_json = Response (Graph nodes edges) st →
   ∀ e, e ∈ edges → edge_source e ≠ edge_target e).
Proof.
  split.
  - intros ->%correlate_emits c. apply emitted_distinct.
  - intros (_ & text & words_data & ws & _ & _ & _ & Hg)%generate_Graph e He.
    apply build_graph_Ok in Hg as (entries & tti' & cs' & _ & _ & Hc & _ & ->).
    apply edges_of_correlations in He as (c & Hin & -> & -> & _).
    apply correlate_emits in Hc as ->. by eapply emitted_distinct.
Qed.


(** C2.  On the entries A (related concepts: B) and B (no related concept),
    inference returns the correlation from node-0 to node-1 explained as
    "A includes B as a related concept", once from the forward scan of A and
    once from the reverse scan of B; with the three remaining keys filled in,
    the payload has the two corresponding edges, so at least one edge from
    node-0 to node-1 whose explanation contains "A includes B". *)
Theorem example_A_includes_B :
  let c := Correlation "node-0" "node-1" "A includes B as a related concept" in
  (term_to_index [bare_entry "A" ["B"]; bare_entry "B" []] ≫= λ tti,
     correlate tti [bare_entry "A" ["B"]; bare_entry "B" []]) = Ok [c; c] ∧
  ∀ s1 d1 x1 s2 d2 x2, ∃ nodes edges,
    build_graph (JArr [entry "A" s1 d1 ["B"] x1; entry "B" s2 d2 [] x2])
      = Ok (nodes, edges) ∧
    edges = [make_edge 0 c; make_edge 1 c] ∧
    ∃ e, e ∈ edges ∧ edge_source e = "node-0" ∧ edge_target e = "node-1" ∧
         contains "A includes B" (edge_explanation e) = true.
Proof.
  intros c.
  assert (∀ tti : gmap string nat, tti !! lower "B" = Some 1%nat →
          ∀ wA wB, term_key wB = Some (lower "B") →
            term_text wA = "A" → term_text wB = "B" →
            related_items wA = [JStr "B"] → related_items wB = [] →
            emitted tti [wA; wB] = [c; c]) as Hem.
  { intros tti Htti wA wB HkB HtA HtB HrA HrB.
    unfold emitted, forward_emitted, reverse_emitted, mentions. simpl.
    rewrite HrA, HrB, HtA, HtB, HkB. simpl.
    rewrite Htti, String.eqb_refl. reflexivity. }
  split.
  - assert (term_to_index [bare_entry "A" ["B"]; bare_entry "B" []]
            = Ok (<[lower "B" := 1%nat]> (<[lower "A" := 0%nat]> ∅))) as ->
      by reflexivity.
    simpl. rewrite correlate_scannable by reflexivity.
    f_equal. apply Hem; try reflexivity. apply lookup_insert_eq.
  - intros s1 d1 x1 s2 d2 x2. eexists _, _. split; [|split].
    + assert (term_to_index [entry "A" s1 d1 ["B"] x1; entry "B" s2 d2 [] x2]
              = Ok (<[lower "B" := 1%nat]> (<[lower "A" := 0%nat]> ∅))) as Htti
        by reflexivity.
      unfold build_graph. cbn [py_len py_iter mbind result_bind].
      rewrite Htti. cbn [mbind result_bind].
      rewrite correlate_scannable by reflexivity.
      rewrite Hem; try reflexivity. apply lookup_insert_eq.
    + reflexivity.
    + exists (make_edge 0 c). split; [apply list_elem_of_here | by vm_compute].
Qed.


(** C9.  The mapping of line 95 sends a case-folded term to the index of the
    last entry with that term: [j] is filed under [k] exactly when entry [j]
    has key [k] and no later entry has, and a key no entry has is absent.
    Hence a related concept of the forward scan that matches a term shared
    by several entries is resolved to the last of them. *)
Theorem term_to_index_last_write_wins words tti :
  term_to_index words = Ok tti →
  (∀ k, tti !! k = last_index k words) ∧
  (∀ k j, tti !! k = Some j →
     (∃ w, words !! j = Some w ∧ term_key w = Some k) ∧
     ∀ j' w', (j < j')%nat → words !! j' = Some w' → term_key w' ≠ Some k) ∧
  (∀ k, tti !! k = None → ∀ w, w ∈ words → term_key w ≠ Some k) ∧
  (∀ i word1 acc acc', forward_scan tti i word1 acc = Ok acc' →
     acc' = acc ++ forward_emitted tti i word1 ∧
     ∀ c, c ∈ forward_emitted tti i word1 ↔
       ∃ s j, JStr s ∈ related_items word1 ∧
              last_index (lower s) words = Some j ∧ i ≠ j ∧
              c = Correlation (node_name i) (node_name j)
                    (includes (term_text word1) s)).
Proof.
  intros Htti.
  assert (∀ k, tti !! k = last_index k words) as Hlast
    by (intros k; by apply term_to_index_last).
  split; [done|]. split; [|split].
  - intros k j Hj. rewrite Hlast in Hj.
    apply last_index_from_Some in Hj as (_ & Hw & Hlater).
    rewrite Nat.sub_0_r in Hw. split; [done|].
    intros j' w' Hlt Hl. apply (Hlater j' w' Hlt). by rewrite Nat.sub_0_r.
  - intros k Hk. rewrite Hlast in Hk. by apply (last_index_from_None k 0).
  - intros i word1 acc acc' Hf. split; [by apply forward_scan_emits|].
    intros c. rewrite forward_emitted_elem.
    split; intros (s & j & Hin & Hj & Hij & ->); exists s, j;
      (split; [done|]); (split; [|done]); by rewrite ?Hlast in *.
Qed.

(** ** Node assembly *)

Lemma make_node_Ok i word n :
  make_node i word = Ok n →
  ∃ l s d r e,
    getitem word "term" = Ok l ∧ getitem word "summary" = Ok s ∧
    getitem word "description" = Ok d ∧
    getitem word "related_concepts" = Ok r ∧ getitem word "examples" = Ok e ∧
    n = Node (node_name i) (NodeData l s d r e)
             (Position (Z.of_nat i * 250) 0) "wordNode" "right" "left".
Proof.
  unfold make_node. intros H.
  inv_bind H. inv_bind H. inv_bind H. inv_bind H. inv_bind H.
  injection H as <-. eauto 12.
Qed.

(** C4.  The payload of a 200 answer has one node for each of the entries
    the handler decoded, in the same order; the node of the [k]-th entry is
    named [node-k], sits at [x = k * 250], [y = 0], and carries the entry's
    term, summary, description, related concepts and examples. *)
Theorem node_synthesis p get_json nodes edges st :
  generate_word_graph p get_json = Response (Graph nodes edges) st →
  ∃ text words_data words entries,
    model_text p get_json = Ok text ∧
    parse_response text = Ok words_data ∧
    getitem words_data "words" = Ok words ∧
    py_iter words = Ok entries ∧
    length nodes = length entries ∧
    ∀ k word, entries !! k = Some word →
      ∃ n l s d r e,
        nodes !! k = Some n ∧
        node_id n = "node-" +:+ pretty k ∧
        pos n = Position (Z.of_nat k * 250) 0 ∧
        data n = NodeData l s d r e ∧
        getitem word "term" = Ok l ∧ getitem word "summary" = Ok s ∧
        getitem word "description" = Ok d ∧
        getitem word "related_concepts" = Ok r ∧
        getitem word "examples" = Ok e.
Proof.
  intros (_ & text & words_data & words & Ht & Hp & Hw & Hg)%generate_Graph.
  apply build_graph_Ok in Hg as (entries & tti & cs & Hi & _ & _ & Hn & _).
  exists text, words_data, words, entries. do 4 (split; [done|]). split.
  - rewrite (mapM_length _ _ _ Hn). apply length_enumerate_from.
  - intros k word Hk. apply enumerate_lookup in Hk.
    destruct (mapM_lookup _ _ _ _ _ Hn Hk) as (n & Hnk & Hmk).
    apply make_node_Ok in Hmk as (l & s & d & r & e & ? & ? & ? & ? & ? & ->).
    eexists _, l, s, d, r, e. by repeat split.
Qed.


Lemma getitem_is_ok word k : is_ok (getitem word k) = has_key k word.
Proof.
  destruct word; try done. simpl. by destruct (assoc k items).
Qed.

Lemma getitem_Raise items k e :
  getitem (JObj items) k = Raise e → e = KeyError k ∧ has_key k (JObj items) = false.
Proof.
  intros H. rewrite <- getitem_is_ok, H. split; [|done].
  simpl in H. destruct (assoc k items); congruence.
Qed.

Lemma make_node_is_ok i word : is_ok (make_node i word) = complete word.
Proof.
  unfold make_node, complete, entry_keys. simpl.
  rewrite <- !getitem_is_ok.
  repeat (match goal with |- context [getitem word ?k] =>
            destruct (getitem word k); simpl; [|done] end).
  done.
Qed.

Lemma make_node_Raise i items e :
  make_node i (JObj items) = Raise e →
  ∃ k, k ∈ entry_keys ∧ e = KeyError k ∧ has_key k (JObj items) = false.
Proof.
  unfold make_node, entry_keys. intros H.
  repeat (match type of H with context [getitem (JObj items) ?k] =>
            let E := fresh "E" in
            destruct (getitem (JObj items) k) eqn:E; cbn [mbind result_bind] in H;
            [|injection H as <-; apply getitem_Raise in E as [-> E];
              exists k; split; [set_solver | done]] end).
  discriminate.
Qed.

Lemma mapM_is_ok {A B} (f : A → result B) xs :
  is_ok (mapM f xs) = forallb (λ x, is_ok (f x)) xs.
Proof.
  induction xs as [|x xs IH]; simpl; [done|].
  destruct (f x); simpl; [|done]. rewrite <- IH. by destruct (mapM f xs).
Qed.

Lemma mapM_Raise {A B} (f : A → result B) xs e :
  mapM f xs = Raise e → ∃ x, x ∈ xs ∧ f x = Raise e.
Proof.
  induction xs as [|x xs IH]; simpl; [done|].
  destruct (f x) as [y|e'] eqn:E; simpl.
  - destruct (mapM f xs); simpl; [done|]. intros [= ->].
    destruct IH as (x' & Hin & Hx'); [done|]. exists x'. split; [by right|done].
  - intros [= ->]. exists x. split; [by left|done].
Qed.

Lemma assemble_is_ok words :
  is_ok (mapM (λ '(i, word), make_node i word) (enumerate words))
  = forallb complete words.
Proof.
  rewrite mapM_is_ok. unfold enumerate. generalize 0%nat.
  induction words as [|w ws IH]; intros n; simpl; [done|].
  by rewrite make_node_is_ok, IH.
Qed.

Lemma scannable_dict word : scannable word = true → is_dict word = true.
Proof. intros ([s Hs] & _)%scannable_inv. by destruct word. Qed.

(** C10.  Take entries whose terms and related concepts are strings, one of
    them without the [related_concepts] key.  Correlation inference
    completes and reads no related concept from that entry.  Node assembly
    completes exactly when every entry has the five keys, so here it stops
    on a missing key and the request is answered 500 with that [KeyError],
    without a graph. *)
Theorem missing_related_concepts entries word :
  forallb scannable entries = true → word ∈ entries →
  has_key "related_concepts" word = false →
  related_items word = [] ∧
  (∃ tti, term_to_index entries = Ok tti ∧
          correlate tti entries = Ok (emitted tti entries)) ∧
  is_ok (mapM (λ '(i, w), make_node i w) (enumerate entries))
    = forallb complete entries ∧
  (∃ k, k ∈ entry_keys ∧ build_graph (JArr entries) = Raise (KeyError k)) ∧
  (∀ p get_json text words_data,
     model_text p get_json = Ok text →
     parse_response text = Ok words_data →
     getitem words_data "words" = Ok (JArr entries) →
     ∃ k, k ∈ entry_keys ∧
          generate_word_graph p get_json = Response (ErrorBody (KeyError k)) 500).
Proof.
  intros Hall Hin Hkey.
  destruct (is_ok_true _ (term_to_index_total _ Hall)) as [tti Htti].
  pose proof (correlate_scannable tti _ Hall) as Hcorr.
  assert (∃ k, k ∈ entry_keys ∧ build_graph (JArr entries) = Raise (KeyError k))
    as (k & Hk & Hbuild).
  { unfold build_graph. cbn [py_len py_iter mbind result_bind].
    rewrite Htti. cbn [mbind result_bind]. rewrite Hcorr. cbn [mbind result_bind].
    destruct (mapM _ (enumerate entries)) as [nodes|e] eqn:Hm.
    - pose proof (assemble_is_ok entries) as Hok. rewrite Hm in Hok.
      symmetry in Hok. simpl in Hok. rewrite forallb_forall in Hok.
      apply list_elem_of_In, Hok in Hin. unfold complete, entry_keys in Hin.
      simpl in Hin. rewrite Hkey in Hin. by rewrite !andb_false_r in Hin.
    - apply mapM_Raise in Hm as ([i w] & Hw & Hraise).
      assert (is_dict w = true) as Hd.
      { apply scannable_dict. rewrite forallb_forall in Hall.
        apply Hall, list_elem_of_In.
        apply list_elem_of_fmap_2 with (f := snd) in Hw.
        unfold enumerate in Hw. by rewrite enumerate_snd in Hw. }
      destruct w; try discriminate.
      apply make_node_Raise in Hraise as (k & Hk & -> & _). eauto. }
  split; [|split; [|split; [|split]]].
  - unfold related_items. destruct word; try done. simpl in *.
    destruct (assoc "related_concepts" items); [|done].
    by rewrite bool_decide_eq_true_2 in Hkey.
  - eauto.
  - apply assemble_is_ok.
  - eauto.
  - intros p get_json text words_data Ht Hp Hw. exists k. split; [done|].
    apply generate_Raise. unfold handle. rewrite Ht. simpl. rewrite Hp. simpl.
    by rewrite Hw.
Qed.


(** ** The extracted span *)

Lemma append_cons a s t : String a s +:+ t = String a (s +:+ t).
Proof. reflexivity. Qed.

Lemma star_find_last s :
  match_here [AnyStar; Lit "}"] s = S <$> find_last "}" s.
Proof.
  induction s as [|a s IH]; [done|].
  change (match_here [AnyStar; Lit "}"] (String a s)) with
    (match match_here [AnyStar; Lit "}"] s with
     | Some n => Some (S n)
     | None => match_here [Lit "}"] (String a s)
     end).
  rewrite IH. simpl. destruct (find_last "}" s); [done|].
  by destruct (Ascii.eqb a "}").
Qed.

Lemma match_brace a s :
  match_here brace_pattern (String a s)
  = if Ascii.eqb a "{" then S <$> (S <$> find_last "}" s) else None.
Proof.
  unfold brace_pattern.
  change (match_here [Lit "{"; AnyStar; Lit "}"] (String a s)) with
    (if Ascii.eqb a "{" then S <$> match_here [AnyStar; Lit "}"] s else None).
  by rewrite star_find_last.
Qed.

Lemma re_search_cons a s :
  re_search brace_pattern (String a s)
  = match match_here brace_pattern (String a s) with
    | Some n => Some (String.substring 0 n (String a s))
    | None => re_search brace_pattern s
    end.
Proof. reflexivity. Qed.

Lemma re_search_no_close s :
  find_last "}" s = None → re_search brace_pattern s = None.
Proof.
  induction s as [|a s IH]; [done|]. intros H.
  rewrite re_search_cons, match_brace. simpl in H.
  destruct (find_last "}" s) eqn:E; [done|].
  destruct (Ascii.eqb a "{"); simpl; auto.
Qed.

(** The pattern of line 77 cuts the text from its first opening brace to its
    last closing brace. *)
Lemma json_match_first_to_last text : json_match text = first_to_last text.
Proof.
  unfold json_match, first_to_last.
  induction text as [|a s IH]; [done|].
  rewrite re_search_cons, match_brace. simpl find_first. simpl find_last.
  destruct (Ascii.eqb a "{") eqn:Ha.
  - apply Ascii.eqb_eq in Ha as ->. simpl.
    destruct (find_last "}" s) as [j|] eqn:E; simpl.
    + by rewrite Nat.add_1_r.
    + by apply re_search_no_close.
  - simpl. rewrite IH. destruct (find_first "{" s) as [i|]; simpl.
    + destruct (find_last "}" s) as [j|]; simpl.
      * change (S i <? S j)%nat with (i <? j)%nat.
        destruct (i <? j)%nat; [|done]. do 2 f_equal.
      * by destruct (Ascii.eqb a "}").
    + destruct (find_last "}" s); [done|]. by destruct (Ascii.eqb a "}").
Qed.

Lemma find_first_Some c s i :
  find_first c s = Some i →
  String.get i s = Some c ∧ ∀ i', (i' < i)%nat → String.get i' s ≠ Some c.
Proof.
  revert i; induction s as [|a s IH]; intros i; simpl; [done|].
  destruct (Ascii.eqb a c) eqn:Ha.
  - intros [= <-]. apply Ascii.eqb_eq in Ha as ->. split; [done | lia].
  - destruct (find_first c s) as [i0|]; [|done]. intros [= <-].
    destruct (IH i0 eq_refl) as [Hg Hlt]. split; [done|].
    intros [|i'] Hi'; simpl.
    + intros [= ->]. by rewrite Ascii.eqb_refl in Ha.
    + apply Hlt. lia.
Qed.

Lemma find_first_None c s i : find_first c s = None → String.get i s ≠ Some c.
Proof.
  revert i; induction s as [|a s IH]; intros i; simpl; [done|].
  destruct (Ascii.eqb a c) eqn:Ha; [done|].
  destruct (find_first c s); [done|]. intros _. destruct i as [|i].
  - intros [= ->]. by rewrite Ascii.eqb_refl in Ha.
  - by apply IH.
Qed.

Lemma find_last_None c s i : find_last c s = None → String.get i s ≠ Some c.
Proof.
  revert i; induction s as [|a s IH]; intros i; simpl; [done|].
  destruct (find_last c s); [done|].
  destruct (Ascii.eqb a c) eqn:Ha; [done|]. intros _. destruct i as [|i].
  - intros [= ->]. by rewrite Ascii.eqb_refl in Ha.
  - by apply IH.
Qed.

Lemma find_last_Some c s j :
  find_last c s = Some j →
  String.get j s = Some c ∧ ∀ j', (j < j')%nat → String.get j' s ≠ Some c.
Proof.
  revert j; induction s as [|a s IH]; intros j; simpl; [done|].
  destruct (find_last c s) as [j0|] eqn:E.
  - intros [= <-]. destruct (IH j0 eq_refl) as [Hg Hgt]. split; [done|].
    intros [|j'] Hj'; [lia|]. apply Hgt. lia.
  - destruct (Ascii.eqb a c) eqn:Ha; [|done]. intros [= <-].
    apply Ascii.eqb_eq in Ha as ->. split; [done|].
    intros [|j'] Hj'; [lia|]. by apply find_last_None.
Qed.

Lemma first_to_last_is_Some text :
  is_Some (first_to_last text) ↔
  ∃ i j, (i < j)%nat ∧ String.get i text = Some "{"%char ∧
         String.get j text = Some "}"%char.
Proof.
  unfold first_to_last. split.
  - destruct (find_first "{" text) as [i|] eqn:Hi; [|by intros [? ?]].
    destruct (find_last "}" text) as [j|] eqn:Hj; [|by intros [? ?]].
    destruct (i <? j)%nat eqn:Hij; [|by intros [? ?]]. intros _.
    apply Nat.ltb_lt in Hij. apply find_first_Some in Hi as [Hi _].
    apply find_last_Some in Hj as [Hj _]. eauto.
  - intros (i & j & Hij & Hi & Hj).
    destruct (find_first "{" text) as [i0|] eqn:Hi0;
      [|by apply (find_first_None _ _ i) in Hi0].
    destruct (find_last "}" text) as [j0|] eqn:Hj0;
      [|by apply (find_last_None _ _ j) in Hj0].
    apply find_first_Some in Hi0 as [_ Hi0]. apply find_last_Some in Hj0 as [_ Hj0].
    assert (i0 ≤ i)%nat by (apply Nat.nlt_ge; intros ?; by eapply Hi0).
    assert (j ≤ j0)%nat by (apply Nat.nlt_ge; intros ?; by eapply Hj0).
    assert ((i0 <? j0)%nat = true) as -> by (apply Nat.ltb_lt; lia). eauto.
Qed.


Lemma find_last_app c s post :
  find_last c post = None →
  find_last c (s +:+ String c post) = Some (String.length s).
Proof.
  intros Hp. induction s as [|a s IH].
  - change (find_last c (String c post) = Some 0%nat). simpl.
    by rewrite Hp, Ascii.eqb_refl.
  - rewrite append_cons. simpl. by rewrite IH.
Qed.

Lemma substring_through c s post :
  String.substring 0 (S (String.length s)) (s +:+ String c post)
  = s +:+ String c EmptyString.
Proof.
  induction s as [|a s IH].
  - change (String.substring 0 1 (String c post) = String c EmptyString).
    simpl. by destruct post.
  - rewrite !append_cons. simpl String.length.
    change (String a (String.substring 0 (S (String.length s))
                        (s +:+ String c post))
            = String a (s +:+ String c EmptyString)).
    by rewrite IH.
Qed.

(** Prose without an opening brace before the object and without a closing
    brace after it is dropped. *)
Lemma json_match_wrapped pre mid post :
  find_first "{" pre = None → find_last "}" post = None →
  json_match (pre +:+ "{" +:+ mid +:+ "}" +:+ post) = Some ("{" +:+ mid +:+ "}").
Proof.
  intros Hpre Hpost. unfold json_match. induction pre as [|a pre IH].
  - change (re_search brace_pattern (String "{" (mid +:+ String "}" post))
            = Some (String "{" (mid +:+ String "}" EmptyString))).
    rewrite re_search_cons, match_brace, find_last_app by done. simpl.
    by rewrite substring_through.
  - simpl in Hpre. destruct (Ascii.eqb a "{") eqn:Ha; [done|].
    destruct (find_first "{" pre); [done|].
    rewrite append_cons, re_search_cons, match_brace, Ha. by apply IH.
Qed.

(** C5.  The pattern of line 77 matches exactly when some opening brace of
    the text comes before some closing brace, and then [json_match.group()]
    is the text from its first opening brace to its last closing brace,
    whatever prose stands around; that span is what [json.loads] is given.
    Without such a span the request is answered 500. *)
Theorem json_extraction text :
  json_match text = first_to_last text ∧
  (is_Some (json_match text) ↔
   ∃ i j, (i < j)%nat ∧ String.get i text = Some "{"%char ∧
          String.get j text = Some "}"%char) ∧
  (∀ pre mid post,
     text = pre +:+ "{" +:+ mid +:+ "}" +:+ post →
     find_first "{" pre = None → find_last "}" post = None →
     json_match text = Some ("{" +:+ mid +:+ "}")) ∧
  parse_response text =
    match first_to_last text with
    | Some span =>
        match json_loads span with
        | Decoded v =>
            if is_dict v && has_key "words" v then Ok v
            else Raise (ValueError "Invalid JSON structure")
        | DecodeError msg => Raise (ValueError ("Failed to parse JSON: " +:+ msg))
        end
    | None => Raise (ValueError "Could not find JSON in response")
    end ∧
  (json_match text = None → ∀ p get_json,
     model_text p get_json = Ok text →
     generate_word_graph p get_json
     = Response (ErrorBody (ValueError "Could not find JSON in response")) 500) ∧
  json_match example_text = Some example_span.
Proof.
  split; [apply json_match_first_to_last|]. split; [|split; [|split; [|split]]].
  - rewrite json_match_first_to_last. apply first_to_last_is_Some.
  - intros pre mid post -> Hpre Hpost. by apply json_match_wrapped.
  - unfold parse_response. rewrite json_match_first_to_last.
    destruct (first_to_last text) as [span|]; [|done].
    destruct (json_loads span) as [v|msg]; [|done].
    by destruct (is_dict v), (has_key "words" v).
  - intros Hnone p get_json Ht. apply generate_Raise.
    unfold handle, parse_response. rewrite Ht. simpl. by rewrite Hnone.
  - by vm_compute.
Qed.

(** C6.  When the extracted span decodes to a value that is not a dict, or
    to a dict without the key [words], line 86 raises and the request is
    answered 500 with the message of that [ValueError], without a graph. *)
Theorem schema_failure text span v :
  json_match text = Some span → json_loads span = Decoded v →
  is_dict v = false ∨ has_key "words" v = false →
  parse_response text = Raise (ValueError "Invalid JSON structure") ∧
  ∀ p get_json, model_text p get_json = Ok text →
    generate_word_graph p get_json
    = Response (ErrorBody (ValueError "Invalid JSON structure")) 500.
Proof.
  intros Hm Hl Hv.
  assert (parse_response text = Raise (ValueError "Invalid JSON structure")) as Hp.
  { unfold parse_response. rewrite Hm, Hl.
    destruct Hv as [-> | ->]; [done | by rewrite orb_true_r]. }
  split; [done|]. intros p get_json Ht. apply generate_Raise.
  unfold handle. rewrite Ht. simpl. by rewrite Hp.
Qed.


(** ** Request body and credential *)

(** The handler reads the body through the two [get] calls only. *)
Lemma generate_word_graph_body p d1 d2 :
  dict_get d1 "topic" (JStr "Technology") = dict_get d2 "topic" (JStr "Technology") →
  dict_get d1 "num_words" (JInt 5) = dict_get d2 "num_words" (JInt 5) →
  generate_word_graph p (Ok d1) = generate_word_graph p (Ok d2).
Proof.
  intros Ht Hn. unfold generate_word_graph, handle, model_text.
  cbn [mbind result_bind]. by rewrite Ht, Hn.
Qed.

Lemma assoc_app_None k items rest :
  assoc k items = None → assoc k (items ++ rest) = assoc k rest.
Proof.
  induction items as [|[k' v] items IH]; simpl; [done|].
  destruct (String.eqb k k'); [done | exact IH].
Qed.

Lemma assoc_app_other k k' v items :
  String.eqb k k' = false → assoc k (items ++ [(k', v)]) = assoc k items.
Proof.
  intros Hk. induction items as [|[k0 v0] items IH]; simpl.
  - by rewrite Hk.
  - by destruct (String.eqb k k0).
Qed.

(** C7, as amended.  A body that is the empty JSON object is handled as the
    body with topic "Technology" and 5 words; in any JSON object, a missing
    [topic] stands for "Technology" and a missing [num_words] for 5. *)
Theorem defaulting p items :
  generate_word_graph p (Ok (JObj []))
  = generate_word_graph p
      (Ok (JObj [("topic", JStr "Technology"); ("num_words", JInt 5)])) ∧
  (assoc "topic" items = None →
   dict_get (JObj items) "topic" (JStr "Technology") = Ok (JStr "Technology") ∧
   generate_word_graph p (Ok (JObj items))
   = generate_word_graph p (Ok (JObj (items ++ [("topic", JStr "Technology")])))) ∧
  (assoc "num_words" items = None →
   dict_get (JObj items) "num_words" (JInt 5) = Ok (JInt 5) ∧
   generate_word_graph p (Ok (JObj items))
   = generate_word_graph p (Ok (JObj (items ++ [("num_words", JInt 5)])))).
Proof.
  split; [by apply generate_word_graph_body|]. split; intros Hnone.
  - split; [simpl; by rewrite Hnone|].
    apply generate_word_graph_body; simpl.
    + by rewrite assoc_app_None, Hnone.
    + by rewrite assoc_app_other.
  - split; [simpl; by rewrite Hnone|].
    apply generate_word_graph_body; simpl.
    + by rewrite assoc_app_other.
    + by rewrite assoc_app_None, Hnone.
Qed.

(** The handler reads the process through the truth value of the primary
    variable and, past that check, through the configured key. *)
Lemma generate_word_graph_process p1 p2 get_json :
  truthy (environ p1 !! "GOOGLE_API_KEY") = truthy (environ p2 !! "GOOGLE_API_KEY") →
  (truthy (environ p1 !! "GOOGLE_API_KEY") = true →
   configured_key p1 = configured_key p2) →
  generate_word_graph p1 get_json = generate_word_graph p2 get_json.
Proof.
  intros Ht Hc. unfold generate_word_graph, handle.
  assert (model_text p1 get_json = model_text p2 get_json) as ->; [|done].
  unfold model_text. destruct get_json as [d|e]; [|done]. cbn [mbind result_bind].
  destruct (dict_get d "topic" _) as [topic|]; [|done]. cbn [mbind result_bind].
  destruct (dict_get d "num_words" _) as [num_words|]; [|done].
  cbn [mbind result_bind]. rewrite <- Ht.
  destruct (truthy (environ p1 !! "GOOGLE_API_KEY")); [|done]. simpl.
  unfold call_model. by rewrite Hc.
Qed.

(** C8, as amended.  With neither variable set otherwise, a process started
    with the secondary variable at [v] answers every request as one started
    with the primary variable at [v].  For a non-empty [v] the start-up code
    copies it into the primary slot and configures the service with it, as
    it does when the primary variable holds [v].  An empty [v] is not copied:
    the primary variable stays unset. *)
Theorem credential_fallback (env : gmap string string) v get_json :
  env !! "GOOGLE_API_KEY" = None → env !! "GEMINI_API_KEY" = None →
  generate_word_graph (startup (<["GEMINI_API_KEY" := v]> env)) get_json
  = generate_word_graph (startup (<["GOOGLE_API_KEY" := v]> env)) get_json ∧
  (v ≠ "" →
   environ (startup (<["GEMINI_API_KEY" := v]> env)) !! "GOOGLE_API_KEY" = Some v ∧
   configured_key (startup (<["GEMINI_API_KEY" := v]> env)) = Some v ∧
   environ (startup (<["GOOGLE_API_KEY" := v]> env)) !! "GOOGLE_API_KEY" = Some v ∧
   configured_key (startup (<["GOOGLE_API_KEY" := v]> env)) = Some v) ∧
  (v = "" →
   environ (startup (<["GEMINI_API_KEY" := v]> env)) !! "GOOGLE_API_KEY" = None).
Proof.
  intros Hg Hs.
  assert (startup (<["GEMINI_API_KEY" := v]> env)
          = if String.eqb v ""
            then Process (<["GEMINI_API_KEY" := v]> env) (Some v)
            else Process (<["GOOGLE_API_KEY" := v]> (<["GEMINI_API_KEY" := v]> env))
                         (Some v)) as H1.
  { unfold startup. rewrite lookup_insert_ne, Hg by done. simpl.
    rewrite lookup_insert_eq. simpl. by destruct (String.eqb v ""). }
  assert (startup (<["GOOGLE_API_KEY" := v]> env)
          = if String.eqb v ""
            then Process (<["GOOGLE_API_KEY" := v]> env) None
            else Process (<["GOOGLE_API_KEY" := v]> env) (Some v)) as H2.
  { unfold startup. rewrite lookup_insert_eq. simpl.
    destruct (String.eqb v ""); simpl; [|done].
    by rewrite lookup_insert_ne, Hs by done. }
  rewrite H1, H2. destruct (String.eqb v "") eqn:Hv.
  - apply String.eqb_eq in Hv as ->. split; [|split; [done|]].
    + apply generate_word_graph_process; simpl.
      * by rewrite lookup_insert_ne, Hg, lookup_insert_eq by done.
      * by rewrite lookup_insert_ne, Hg by done.
    + intros _. simpl. by rewrite lookup_insert_ne by done.
  - apply String.eqb_neq in Hv. split; [|split; [|done]].
    + apply generate_word_graph_process; simpl; [|done].
      by rewrite !lookup_insert_eq.
    + intros _. simpl. by rewrite !lookup_insert_eq.
Qed.


(** ** Runs that succeed, bodies that cannot *)

(** Entries with the five keys, whose term and related concepts are strings,
    give a graph. *)
Lemma build_graph_total entries :
  forallb scannable entries = true → forallb complete entries = true →
  is_ok (build_graph (JArr entries)) = true.
Proof.
  intros Hs Hc. unfold build_graph. cbn [py_len py_iter mbind result_bind].
  destruct (is_ok_true _ (term_to_index_total _ Hs)) as [tti ->].
  cbn [mbind result_bind]. rewrite (correlate_scannable tti _ Hs).
  cbn [mbind result_bind]. pose proof (assemble_is_ok entries) as Hn.
  rewrite Hc in Hn. by destruct (is_ok_true _ Hn) as [nodes ->].
Qed.

(** X16.  Whatever [request.get_json()] comes to, short of a dict, the
    request is answered 500: lines 32 and 33 need the body to have a [get]
    method. *)
Lemma non_object_body_fails p get_json :
  (∀ items, get_json ≠ Ok (JObj items)) →
  ∃ e, generate_word_graph p get_json = Response (ErrorBody e) 500.
Proof.
  intros Hno. destruct get_json as [d|e].
  - exists AttributeError. apply generate_Raise. unfold handle, model_text.
    destruct d; try done. by destruct (Hno items).
  - exists e. by apply generate_Raise.
Qed.

(** ** More on the loops *)

Lemma foldM_Ok_steps {A B} (f : B → A → result B) xs acc r :
  foldM f acc xs = Ok r → ∀ x, x ∈ xs → ∃ a a', f a x = Ok a'.
Proof.
  revert acc; induction xs as [|x0 xs IH]; intros acc H x Hx; simpl in *.
  - by apply elem_of_nil in Hx.
  - inv_bind H. apply elem_of_cons in Hx as [->|Hx]; [eauto | by eapply IH].
Qed.

Lemma mapM_lookup_inv {A B} (f : A → result B) xs ys k y :
  mapM f xs = Ok ys → ys !! k = Some y → ∃ x, xs !! k = Some x ∧ f x = Ok y.
Proof.
  revert ys k; induction xs as [|x0 xs IH]; intros ys k H Hk; simpl in *.
  - by injection H as <-.
  - inv_bind H. inv_bind H. injection H as <-.
    destruct k as [|k]; simpl in *.
    + injection Hk as <-. eauto.
    + eapply IH; eauto.
Qed.

Lemma enumerate_from_lookup_fmap {A} (xs : list A) n k :
  enumerate_from n xs !! k = (λ x, ((n + k)%nat, x)) <$> xs !! k.
Proof.
  revert n k; induction xs as [|y ys IH]; intros n k; [done|].
  destruct k as [|k]; simpl.
  - by rewrite Nat.add_0_r.
  - rewrite IH. by replace (S n + k)%nat with (n + S k)%nat by lia.
Qed.

Lemma enumerate_lookup_inv {A} (xs : list A) k i x :
  enumerate xs !! k = Some (i, x) → i = k ∧ xs !! k = Some x.
Proof.
  unfold enumerate. rewrite enumerate_from_lookup_fmap.
  destruct (xs !! k); simpl; [|done]. by intros [= <- <-].
Qed.

(** ** Edges and identifiers *)

Lemma edges_lookup (cs : list correlation) k :
  ((λ '(i, corr), make_edge i corr) <$> enumerate cs) !! k
  = make_edge k <$> cs !! k.
Proof.
  rewrite list_lookup_fmap. unfold enumerate.
  rewrite enumerate_from_lookup_fmap. by destruct (cs !! k).
Qed.

Lemma nodes_lookup entries nodes k n :
  mapM (λ '(i, word), make_node i word) (enumerate entries) = Ok nodes →
  nodes !! k = Some n → node_id n = node_name k ∧ is_Some (entries !! k).
Proof.
  intros Hm Hk. destruct (mapM_lookup_inv _ _ _ _ _ Hm Hk) as ([i w] & Hl & Hn).
  apply enumerate_lookup_inv in Hl as [-> Hl].
  apply make_node_Ok in Hn as (? & ? & ? & ? & ? & _ & _ & _ & _ & _ & ->).
  split; [done | by eexists].
Qed.

(** X1.  The edges of a graph are the correlations of the entries, in the
    order inference returns them: the [k]-th edge is named [edge-k], is
    animated, has the fixed stroke and carries the endpoints and the
    explanation of the [k]-th correlation. *)
Theorem edge_synthesis words nodes edges :
  build_graph words = Ok (nodes, edges) →
  ∃ entries tti cs,
    py_iter words = Ok entries ∧ term_to_index entries = Ok tti ∧
    correlate tti entries = Ok cs ∧
    length edges = length cs ∧
    ∀ k, edges !! k
         = (λ c, Edge ("edge-" +:+ pretty k) (source c) (target c) true
                   (EdgeStyle "#3b82f6" 2) (explanation c)) <$> cs !! k.
Proof.
  intros (entries & tti & cs & Hi & Ht & Hc & _ & ->)%build_graph_Ok.
  exists entries, tti, cs. do 3 (split; [done|]). split.
  - rewrite length_fmap. apply length_enumerate_from.
  - intros k. apply edges_lookup.
Qed.

(** X2.  In a graph no two nodes have the same identifier and no two edges
    have the same identifier. *)
Theorem identifiers_distinct words nodes edges :
  build_graph words = Ok (nodes, edges) →
  NoDup (node_id <$> nodes) ∧ NoDup (edge_id <$> edges).
Proof.
  intros (entries & tti & cs & _ & _ & _ & Hn & ->)%build_graph_Ok. split.
  - apply NoDup_alt. intros i j s. rewrite !list_lookup_fmap.
    destruct (nodes !! i) as [n1|] eqn:H1; [|done].
    destruct (nodes !! j) as [n2|] eqn:H2; [|done]. simpl.
    intros [= <-] [= Heq].
    apply (nodes_lookup _ _ _ _ Hn) in H1 as [H1 _].
    apply (nodes_lookup _ _ _ _ Hn) in H2 as [H2 _].
    apply node_name_inj. congruence.
  - apply NoDup_alt. intros i j s.
    rewrite !(list_lookup_fmap edge_id), !edges_lookup.
    destruct (cs !! i) as [c1|]; [|done]. destruct (cs !! j) as [c2|]; [|done].
    simpl. intros [= <-] [= Heq]. by apply (inj _), (inj pretty) in Heq.
Qed.


(** ** Edges and mentions *)

Lemma mentions_intro word1 rs s :
  JStr s ∈ rs → term_key word1 = Some (lower s) → mentions word1 rs = true.
Proof.
  intros Hin Hk. unfold mentions. apply existsb_exists. exists (JStr s).
  split; [by apply list_elem_of_In|]. rewrite Hk. simpl. apply String.eqb_refl.
Qed.

Lemma mentions_elim word1 rs :
  mentions word1 rs = true →
  ∃ s, JStr s ∈ rs ∧ term_key word1 = Some (lower s).
Proof.
  unfold mentions. intros (r & Hin & Hr)%existsb_exists.
  destruct (term_key word1) as [a|]; [|done]. destruct r; try done.
  simpl in Hr. apply String.eqb_eq in Hr as ->. exists s.
  split; [by apply list_elem_of_In | done].
Qed.

(** A correlation links two different entries, the first of which lists
    the term of the second. *)
Lemma emitted_links tti words c :
  term_to_index words = Ok tti → c ∈ emitted tti words →
  ∃ a b wa wb, words !! a = Some wa ∧ words !! b = Some wb ∧ a ≠ b ∧
    source c = node_name a ∧ target c = node_name b ∧
    mentions wb (related_items wa) = true.
Proof.
  intros Htti. unfold emitted. intros ([i word1] & Hc & Hi)%list_elem_of_bind.
  apply enumerate_elem in Hi. apply elem_of_app in Hc as [Hc|Hc].
  - apply forward_emitted_elem in Hc as (s & j & Hs & Hj & Hij & ->).
    rewrite (term_to_index_last _ _ _ Htti) in Hj.
    apply last_index_from_Some in Hj as (_ & (wj & Hwj & Hkj) & _).
    rewrite Nat.sub_0_r in Hwj. exists i, j, word1, wj.
    repeat split; try done. by eapply mentions_intro.
  - apply reverse_emitted_elem in Hc as (j & word2 & Hj & Hij & Hm & ->).
    exists j, i, word2, word1. repeat split; done || congruence.
Qed.

(** X3.  Every edge of a graph joins two nodes of that graph. *)
Theorem edges_join_nodes words nodes edges :
  build_graph words = Ok (nodes, edges) →
  ∀ e, e ∈ edges →
    ∃ n1 n2, n1 ∈ nodes ∧ n2 ∈ nodes ∧
             node_id n1 = edge_source e ∧ node_id n2 = edge_target e.
Proof.
  intros (entries & tti & cs & _ & Ht & Hc & Hn & ->)%build_graph_Ok e He.
  apply edges_of_correlations in He as (c & Hin & -> & -> & _).
  apply correlate_emits in Hc as ->.
  apply (emitted_links _ _ _ Ht) in Hin
    as (a & b & wa & wb & Ha & Hb & _ & -> & -> & _).
  apply enumerate_lookup in Ha, Hb.
  destruct (mapM_lookup _ _ _ _ _ Hn Ha) as (n1 & H1 & Hm1).
  destruct (mapM_lookup _ _ _ _ _ Hn Hb) as (n2 & H2 & Hm2).
  apply make_node_Ok in Hm1 as (? & ? & ? & ? & ? & _ & _ & _ & _ & _ & E1).
  apply make_node_Ok in Hm2 as (? & ? & ? & ? & ? & _ & _ & _ & _ & _ & E2).
  exists n1, n2. split; [by eapply list_elem_of_lookup_2|].
  split; [by eapply list_elem_of_lookup_2|]. by rewrite E1, E2.
Qed.

(** X4.  An edge is never invented: each correlation inference returns goes
    from an entry to a different entry whose term is, up to case, one of the
    related concepts of the first. *)
Theorem edge_from_mention words tti cs c :
  term_to_index words = Ok tti → correlate tti words = Ok cs → c ∈ cs →
  ∃ a b wa wb s,
    words !! a = Some wa ∧ words !! b = Some wb ∧ a ≠ b ∧
    source c = "node-" +:+ pretty a ∧ target c = "node-" +:+ pretty b ∧
    JStr s ∈ related_items wa ∧ term_key wb = Some (lower s).
Proof.
  intros Ht ->%correlate_emits Hc.
  apply (emitted_links _ _ _ Ht) in Hc
    as (a & b & wa & wb & Ha & Hb & Hab & Hs & Htg & Hm).
  apply mentions_elim in Hm as (s & Hin & Hk). by exists a, b, wa, wb, s.
Qed.

(** X5.  No mention is lost, whatever the case it is written in: when the
    term and the related concepts of every entry are strings and entry [i]
    lists a concept equal, up to case, to the term of another entry [j],
    inference returns a correlation from [i] to [j], explained with the two
    terms. *)
Theorem mention_gives_edge words i j wi wj s :
  forallb scannable words = true →
  words !! i = Some wi → words !! j = Some wj → i ≠ j →
  JStr s ∈ related_items wi → term_key wj = Some (lower s) →
  ∃ cs, (term_to_index words ≫= λ tti, correlate tti words) = Ok cs ∧
        Correlation ("node-" +:+ pretty i) ("node-" +:+ pretty j)
          (term_text wi +:+ " includes " +:+ term_text wj
             +:+ " as a related concept") ∈ cs.
Proof.
  intros Hall Hi Hj Hij Hs Hk.
  destruct (is_ok_true _ (term_to_index_total _ Hall)) as [tti Htti].
  exists (emitted tti words). rewrite Htti. simpl. split.
  - by apply correlate_scannable.
  - unfold emitted. apply list_elem_of_bind. exists (j, wj).
    split; [|by apply enumerate_elem]. apply elem_of_app. right.
    apply reverse_emitted_elem. exists i, wi. repeat split; try done.
    by eapply mentions_intro.
Qed.

(** X6.  The forward scan adds no link of its own: when the term and the
    related concepts of every entry are strings, each correlation it emits
    for entry [i] has the endpoints of a correlation that the reverse scan
    of its target entry emits. *)
Theorem forward_has_reverse_twin words tti i word1 :
  forallb scannable words = true → term_to_index words = Ok tti →
  words !! i = Some word1 →
  ∃ fs, forward_scan tti i word1 [] = Ok fs ∧
    ∀ c, c ∈ fs →
      ∃ j wj rs c', words !! j = Some wj ∧ target c = "node-" +:+ pretty j ∧
        reverse_scan words j wj [] = Ok rs ∧ c' ∈ rs ∧
        source c' = source c ∧ target c' = target c.
Proof.
  intros Hall Htti Hi.
  assert (∀ k w, words !! k = Some w → scannable w = true) as Hsc.
  { intros k w Hk. rewrite forallb_forall in Hall.
    by eapply Hall, list_elem_of_In, list_elem_of_lookup_2. }
  destruct (is_ok_true _ (forward_scan_total tti i word1 [] (Hsc _ _ Hi)))
    as [fs Hfs].
  exists fs. split; [done|]. apply forward_scan_emits in Hfs as ->.
  intros c (s & j & Hs & Hj & Hij & ->)%forward_emitted_elem.
  rewrite (term_to_index_last _ _ _ Htti) in Hj.
  apply last_index_from_Some in Hj as (_ & (wj & Hwj & Hkj) & _).
  rewrite Nat.sub_0_r in Hwj.
  destruct (is_ok_true _ (reverse_scan_total words j wj [] Hall (Hsc _ _ Hwj)))
    as [rs Hrs].
  exists j, wj, rs, (Correlation (node_name i) (node_name j)
                       (includes (term_text word1) (term_text wj))).
  repeat split; try done.
  apply reverse_scan_emits in Hrs as ->. apply reverse_emitted_elem.
  exists i, word1. repeat split; try (done || congruence).
  by eapply mentions_intro.
Qed.


(** ** When a graph is built *)

Lemma term_to_index_Ok_keys words tti w :
  term_to_index words = Ok tti → w ∈ words → is_Some (term_key w).
Proof.
  intros H Hw. apply list_elem_of_lookup in Hw as [k Hk].
  apply enumerate_lookup, list_elem_of_lookup_2 in Hk.
  destruct (foldM_Ok_steps _ _ _ _ H _ Hk) as (m & m' & Hstep). simpl in Hstep.
  inv_bind Hstep. inv_bind Hstep. rewrite (term_key_Ok _ _ _ Hv Hv0). by eexists.
Qed.

Lemma forward_scan_Ok_strings tti i word1 acc acc' :
  forward_scan tti i word1 acc = Ok acc' →
  match dict_get word1 "related_concepts" (JArr []) ≫= py_iter with
  | Ok rs => forallb is_str rs
  | Raise _ => false
  end = true.
Proof.
  unfold forward_scan. intros H. inv_bind H. inv_bind H. rewrite Hv. simpl.
  rewrite Hv0. apply forallb_forall. intros r Hr%list_elem_of_In.
  destruct (foldM_Ok_steps _ _ _ _ H _ Hr) as (a & a' & Hstep).
  inv_bind Hstep. by apply str_lower_Ok in Hv1 as (s & -> & _).
Qed.

Lemma correlate_Ok_scannable words tti cs :
  term_to_index words = Ok tti → correlate tti words = Ok cs →
  forallb scannable words = true.
Proof.
  intros Ht Hc. apply forallb_forall. intros w Hw%list_elem_of_In.
  unfold scannable. apply andb_true_iff. split.
  - apply bool_decide_eq_true. by eapply term_to_index_Ok_keys.
  - apply list_elem_of_lookup in Hw as [k Hk].
    apply enumerate_lookup, list_elem_of_lookup_2 in Hk.
    destruct (foldM_Ok_steps _ _ _ _ Hc _ Hk) as (a & a' & Hstep).
    simpl in Hstep. inv_bind Hstep. by eapply forward_scan_Ok_strings.
Qed.

(** X7.  A list of entries gives a graph exactly when every entry is a dict
    with the five keys whose term is a string and whose related concepts
    are a collection of strings; any other list ends in an exception. *)
Theorem build_graph_succeeds_iff entries :
  is_ok (build_graph (JArr entries))
  = forallb scannable entries && forallb complete entries.
Proof.
  destruct (is_ok (build_graph (JArr entries))) eqn:Hok.
  - apply is_ok_true in Hok as [[nodes edges] Hg].
    apply build_graph_Ok in Hg as (es & tti & cs & [= <-] & Ht & Hc & Hn & _).
    rewrite (correlate_Ok_scannable _ _ _ Ht Hc). simpl.
    rewrite <- assemble_is_ok. by rewrite Hn.
  - destruct (forallb scannable entries) eqn:Hs; [|done].
    destruct (forallb complete entries) eqn:Hc; [|done].
    by rewrite build_graph_total in Hok.
Qed.

(** X8.  What line 91 yields need not be a list.  An empty list, an empty
    string and an empty dict all give the empty graph; any other value that
    is not a list raises a [TypeError], at [len] for [None], a boolean or a
    number, at the first subscript for a string or a dict. *)
Theorem words_not_a_list words :
  match words with
  | JArr [] | JStr EmptyString | JObj [] => build_graph words = Ok ([], [])
  | JArr _ => True
  | _ => build_graph words = Raise TypeError
  end.
Proof.
  destruct words as [| | | |s|items|items]; try done.
  - by destruct s.
  - by destruct items.
  - by destruct items as [|[k v] items].
Qed.


(** ** Start-up and credential *)

(** X9.  Start-up writes the primary variable at most: every other variable
    keeps its value, and a non-empty primary variable is left as it is and
    is the key the service is configured with, whatever the secondary
    variable holds. *)
Theorem startup_preserves (env : gmap string string) :
  (∀ k, k ≠ "GOOGLE_API_KEY" → environ (startup env) !! k = env !! k) ∧
  (truthy (env !! "GOOGLE_API_KEY") = true →
   startup env = Process env (env !! "GOOGLE_API_KEY")).
Proof.
  unfold startup. split.
  - intros k Hk. destruct (truthy (env !! "GOOGLE_API_KEY")); simpl; [done|].
    destruct (env !! "GEMINI_API_KEY") as [v|]; [|done].
    destruct (truthy (Some v)); simpl; [|done]. by rewrite lookup_insert_ne.
  - by intros ->.
Qed.

(** X10.  After start-up the check of line 37 passes exactly when the
    service has been configured with a non-empty key, and the key it reads
    is then that key; running the start-up code again on the environment it
    leaves changes nothing. *)
Theorem startup_consistent (env : gmap string string) :
  truthy (environ (startup env) !! "GOOGLE_API_KEY")
  = truthy (configured_key (startup env)) ∧
  (truthy (configured_key (startup env)) = true →
   environ (startup env) !! "GOOGLE_API_KEY" = configured_key (startup env)) ∧
  startup (environ (startup env)) = startup env.
Proof.
  unfold startup.
  destruct (truthy (env !! "GOOGLE_API_KEY")) eqn:Hg; simpl.
  - by rewrite Hg.
  - destruct (env !! "GEMINI_API_KEY") as [v|] eqn:Hs; simpl.
    + destruct (negb (String.eqb v "")) eqn:Hv; simpl.
      * rewrite lookup_insert_eq. simpl. by rewrite Hv.
      * rewrite Hg, Hs. simpl. by rewrite Hv.
    + rewrite Hg, Hs. simpl. done.
Qed.

(** X11.  When neither variable holds a non-empty value, every request with
    a JSON object as body is answered 500 with the message of line 38,
    whatever the generation service would have answered. *)
Theorem no_credential (env : gmap string string) items :
  truthy (env !! "GOOGLE_API_KEY") = false →
  truthy (env !! "GEMINI_API_KEY") = false →
  generate_word_graph (startup env) (Ok (JObj items))
  = Response
      (ErrorBody (ValueError "GOOGLE_API_KEY environment variable not set")) 500.
Proof.
  intros Hg Hs. apply generate_Raise. unfold handle, model_text.
  cbn [mbind result_bind dict_get].
  assert (truthy (environ (startup env) !! "GOOGLE_API_KEY") = false) as ->; [|done].
  unfold startup. rewrite Hg. simpl.
  destruct (env !! "GEMINI_API_KEY") as [v|]; [|done].
  by rewrite Hs.
Qed.

(** ** Failures of the collaborators *)

(** X12.  When the service raises, or returns an empty text, the request is
    answered 500 and the message is that of the exception, or "Empty
    response from Gemini", after "Error calling Gemini API: ". *)
Theorem generation_failure p items :
  truthy (environ p !! "GOOGLE_API_KEY") = true →
  match generate_content (configured_key p)
          (prompt (default (JInt 5) (assoc "num_words" items))
                  (default (JStr "Technology") (assoc "topic" items))) with
  | Fails msg =>
      generate_word_graph p (Ok (JObj items))
      = Response (ErrorBody (ValueError ("Error calling Gemini API: " +:+ msg))) 500
  | Text t =>
      t = "" →
      generate_word_graph p (Ok (JObj items))
      = Response (ErrorBody (ValueError
          "Error calling Gemini API: Empty response from Gemini")) 500
  end.
Proof.
  intros Hk.
  destruct (generate_content _ _) as [t|msg] eqn:Hg; [intros ->|];
    apply generate_Raise; unfold handle, model_text;
    cbn [mbind result_bind dict_get]; rewrite Hk; simpl;
    unfold call_model; by rewrite Hg.
Qed.


(** X14.  From the raw inputs to the graph: with a non-empty key in the
    primary variable, a JSON object as body, a non-empty reply whose span
    decodes to a dict with a list of entries under [words], each with the
    five keys, a string as term and strings as related concepts, the answer
    is 200 and has one node for each entry. *)
Theorem handler_succeeds p body text span items entries :
  truthy (environ p !! "GOOGLE_API_KEY") = true →
  generate_content (configured_key p)
    (prompt (default (JInt 5) (assoc "num_words" body))
            (default (JStr "Technology") (assoc "topic" body))) = Text text →
  text ≠ "" →
  json_match text = Some span → json_loads span = Decoded (JObj items) →
  assoc "words" items = Some (JArr entries) →
  forallb scannable entries = true → forallb complete entries = true →
  ∃ nodes edges,
    generate_word_graph p (Ok (JObj body)) = Response (Graph nodes edges) 200 ∧
    length nodes = length entries.
Proof.
  intros Hk Hg Ht Hm Hl Hw Hs Hc.
  destruct (is_ok_true _ (build_graph_total _ Hs Hc)) as [[nodes edges] Hb].
  exists nodes, edges. split.
  - assert (model_text p (Ok (JObj body)) = Ok text) as Hmt.
    { unfold model_text. cbn [mbind result_bind dict_get]. rewrite Hk. simpl.
      unfold call_model. rewrite Hg. apply String.eqb_neq in Ht. by rewrite Ht. }
    assert (parse_response text = Ok (JObj items)) as Hp.
    { unfold parse_response. rewrite Hm, Hl. simpl. by rewrite Hw. }
    assert (getitem (JObj items) "words" = Ok (JArr entries)) as Hgi.
    { simpl. by rewrite Hw. }
    unfold generate_word_graph, handle. rewrite Hmt. cbn [mbind result_bind].
    rewrite Hp. cbn [mbind result_bind]. rewrite Hgi. cbn [mbind result_bind].
    by rewrite Hb.
  - apply build_graph_Ok in Hb as (es & _ & _ & [= <-] & _ & _ & Hn & _).
    rewrite (mapM_length _ _ _ Hn). apply length_enumerate_from.
Qed.


(** ** The shape of the extracted span *)

Lemma find_last_split c s j :
  find_last c s = Some j →
  ∃ mid post, s = mid +:+ String c post ∧ String.length mid = j ∧
              find_last c post = None.
Proof.
  revert j; induction s as [|a s IH]; intros j; simpl; [done|].
  destruct (find_last c s) as [j0|] eqn:E.
  - intros [= <-]. destruct (IH j0 eq_refl) as (mid & post & -> & <- & Hp).
    by exists (String a mid), post.
  - destruct (Ascii.eqb a c) eqn:Ha; [|done]. intros [= <-].
    apply Ascii.eqb_eq in Ha as ->. by exists EmptyString, s.
Qed.

Lemma json_match_split text span :
  json_match text = Some span →
  ∃ pre mid post,
    text = pre +:+ "{" +:+ mid +:+ "}" +:+ post ∧
    find_first "{" pre = None ∧ find_last "}" post = None ∧
    span = "{" +:+ mid +:+ "}".
Proof.
  unfold json_match. induction text as [|a s IH]; [done|].
  rewrite re_search_cons, match_brace.
  destruct (Ascii.eqb a "{") eqn:Ha.
  - apply Ascii.eqb_eq in Ha as ->.
    destruct (find_last "}" s) as [j|] eqn:E; simpl.
    + apply find_last_split in E as (mid & post & -> & <- & Hp).
      intros [= <-]. exists EmptyString, mid, post. repeat split; try done.
      change (String "{" (String.substring 0 (S (String.length mid))
                            (mid +:+ String "}" post))
              = String "{" (mid +:+ String "}" EmptyString)).
      by rewrite substring_through.
    + intros H. by rewrite re_search_no_close in H.
  - intros (pre & mid & post & -> & Hpre & Hpost & ->)%IH.
    exists (String a pre), mid, post. repeat split; try done.
    simpl. by rewrite Ha, Hpre.
Qed.

(** X15.  The pattern of line 77 finds a span exactly when the text is some
    prose without an opening brace, an opening brace, anything, a closing
    brace and some prose without a closing brace, and the span is then what
    stands between the two proses; in particular it starts with an opening
    brace, ends with a closing one, and searching it again gives it back. *)
Theorem json_match_shape text span :
  (json_match text = Some span ↔
   ∃ pre mid post,
     text = pre +:+ "{" +:+ mid +:+ "}" +:+ post ∧
     find_first "{" pre = None ∧ find_last "}" post = None ∧
     span = "{" +:+ mid +:+ "}") ∧
  (json_match text = Some span → json_match span = Some span).
Proof.
  split; [split|].
  - apply json_match_split.
  - intros (pre & mid & post & -> & Hpre & Hpost & ->).
    by apply json_match_wrapped.
  - intros (pre & mid & post & _ & _ & _ & ->)%json_match_split.
    apply (json_match_wrapped EmptyString mid EmptyString); done.
Qed.


End Handler.

(** * The claims on examples *)

Lemma example_run :
  generate_word_graph ascii_lower no_repr (answers example_text) example_loads
    example_process (Ok (JObj []))
  = Response (Graph example_nodes example_edges) 200.
Proof. by vm_compute. Qed.

(** The reverse scan of B in the entries A (related: B), B. *)
Lemma reverse_scan_emits_mentions_witness :
  [bare_entry "A" ["B"]; bare_entry "B" []] !! 1%nat = Some (bare_entry "B" []) ∧
  reverse_scan ascii_lower no_repr [bare_entry "A" ["B"]; bare_entry "B" []]
    1 (bare_entry "B" []) []
  = Ok [Correlation "node-0" "node-1" "A includes B as a related concept"].
Proof.
  split; [reflexivity|].
  exact (proj1 (reverse_scan_emits_mentions ascii_lower no_repr
                  [bare_entry "A" ["B"]; bare_entry "B" []] 1
                  (bare_entry "B" []) [] eq_refl) eq_refl).
Defined.

(** C1 as the specification words it.  For the pair [i = 0], [j = 1] of the
    entries A (related: B), B the term of entry [j] is among the related
    concepts of entry [i], so the claimed scan emits the correlation from
    node-1 to node-0; the reverse scan of entry 0 emits nothing, and
    inference as a whole returns two correlations from node-0 to node-1. *)
Lemma reverse_scan_not_as_claimed :
  reverse_claimed ascii_lower no_repr
    [bare_entry "A" ["B"]; bare_entry "B" []] 0 (bare_entry "A" ["B"])
  = [Correlation "node-1" "node-0" "B includes A as a related concept"] ∧
  reverse_scan ascii_lower no_repr
    [bare_entry "A" ["B"]; bare_entry "B" []] 0 (bare_entry "A" ["B"]) []
  = Ok [] ∧
  (term_to_index ascii_lower [bare_entry "A" ["B"]; bare_entry "B" []] ≫= λ tti,
     correlate ascii_lower no_repr tti [bare_entry "A" ["B"]; bare_entry "B" []])
  = Ok [Correlation "node-0" "node-1" "A includes B as a related concept";
        Correlation "node-0" "node-1" "A includes B as a related concept"].
Proof. by vm_compute. Qed.

(** The first example entry lists its own term in lower case. *)
Lemma no_self_loops_witness :
  generate_word_graph ascii_lower no_repr (answers example_text) example_loads
    example_process (Ok (JObj []))
  = Response (Graph example_nodes example_edges) 200 ∧
  ∀ e, e ∈ example_edges → edge_source e ≠ edge_target e.
Proof.
  split; [exact example_run|].
  exact (proj2 (no_self_loops ascii_lower no_repr (answers example_text)
                  example_loads ∅ [] [] example_process (Ok (JObj []))
                  example_nodes example_edges 200) example_run).
Defined.

Lemma node_synthesis_witness :
  generate_word_graph ascii_lower no_repr (answers example_text) example_loads
    example_process (Ok (JObj []))
  = Response (Graph example_nodes example_edges) 200 ∧
  ∃ entries, length example_nodes = length entries ∧
    ∀ k word, entries !! k = Some word →
      ∃ n, example_nodes !! k = Some n ∧ node_id n = "node-" +:+ pretty k ∧
           pos n = Position (Z.of_nat k * 250) 0 ∧
           getitem word "term" = Ok (label (data n)).
Proof.
  split; [exact example_run|].
  destruct (node_synthesis ascii_lower no_repr (answers example_text)
              example_loads example_process (Ok (JObj []))
              example_nodes example_edges 200 example_run)
    as (_ & _ & _ & entries & _ & _ & _ & _ & Hlen & Hnodes).
  exists entries. split; [exact Hlen|]. intros k word Hk.
  destruct (Hnodes k word Hk) as (n & l & s & d & r & e & Hn & Hid & Hpos & Hd & Hl & _).
  exists n. rewrite Hd. auto.
Defined.

(** The document with the key [notwords]. *)
Lemma schema_failure_witness :
  json_match notwords_text = Some notwords_text ∧
  notwords_loads notwords_text = Decoded (JObj [("notwords", JArr [])]) ∧
  has_key "words" (JObj [("notwords", JArr [])]) = false ∧
  generate_word_graph ascii_lower no_repr (answers notwords_text) notwords_loads
    example_process (Ok (JObj []))
  = Response (ErrorBody (ValueError "Invalid JSON structure")) 500.
Proof.
  split; [reflexivity|]. split; [reflexivity|]. split; [reflexivity|].
  exact (proj2 (schema_failure ascii_lower no_repr (answers notwords_text)
                  notwords_loads notwords_text notwords_text
                  (JObj [("notwords", JArr [])]) eq_refl eq_refl
                  (or_intror eq_refl))
               example_process (Ok (JObj [])) eq_refl).
Defined.

(** A body with the number of words only. *)
Lemma defaulting_witness :
  assoc "topic" [("num_words", JInt 3)] = None ∧
  generate_word_graph ascii_lower no_repr (answers example_text) example_loads
    example_process (Ok (JObj [("num_words", JInt 3)]))
  = generate_word_graph ascii_lower no_repr (answers example_text) example_loads
      example_process
      (Ok (JObj [("num_words", JInt 3); ("topic", JStr "Technology")])).
Proof.
  split; [reflexivity|].
  exact (proj2 (proj1 (proj2 (defaulting ascii_lower no_repr
                                (answers example_text) example_loads
                                example_process [("num_words", JInt 3)]))
                      eq_refl)).
Defined.

(** C7 as the specification words it.  A request without a body has no JSON
    object: [request.get_json()] returns [None] or raises, the [get] calls
    of lines 32 and 33 are not reached or fail, and the answer is 500, where
    the body with topic "Technology" and 5 words is answered 200. *)
Lemma empty_body_not_defaulted :
  generate_word_graph ascii_lower no_repr (answers example_text) example_loads
    example_process (Ok JNull)
  = Response (ErrorBody AttributeError) 500 ∧
  generate_word_graph ascii_lower no_repr (answers example_text) example_loads
    example_process (Raise (HTTPException "415 Unsupported Media Type"))
  = Response (ErrorBody (HTTPException "415 Unsupported Media Type")) 500 ∧
  generate_word_graph ascii_lower no_repr (answers example_text) example_loads
    example_process
    (Ok (JObj [("topic", JStr "Technology"); ("num_words", JInt 5)]))
  = Response (Graph example_nodes example_edges) 200.
Proof. by vm_compute. Qed.

(** Only the secondary variable is set, to a non-empty value. *)
Lemma credential_fallback_witness :
  (∅ : gmap string string) !! "GOOGLE_API_KEY" = None ∧
  (∅ : gmap string string) !! "GEMINI_API_KEY" = None ∧
  generate_word_graph ascii_lower no_repr (answers example_text) example_loads
    (startup (<["GEMINI_API_KEY" := "secret"]> ∅)) (Ok (JObj []))
  = generate_word_graph ascii_lower no_repr (answers example_text) example_loads
      (startup (<["GOOGLE_API_KEY" := "secret"]> ∅)) (Ok (JObj [])).
Proof.
  split; [reflexivity|]. split; [reflexivity|].
  exact (proj1 (credential_fallback ascii_lower no_repr (answers example_text)
                  example_loads ∅ "secret" (Ok (JObj [])) eq_refl eq_refl)).
Defined.

(** C8 as the specification words it.  With the secondary variable set to
    the empty string the guard of line 17 fails: nothing is copied and a
    later read of the primary variable does not see the value. *)
Lemma empty_secondary_not_copied :
  environ (startup {[ "GEMINI_API_KEY" := "" ]}) !! "GOOGLE_API_KEY" = None ∧
  environ (startup {[ "GEMINI_API_KEY" := "" ]}) !! "GOOGLE_API_KEY" ≠ Some "" ∧
  environ (startup {[ "GOOGLE_API_KEY" := "" ]}) !! "GOOGLE_API_KEY" = Some "".
Proof. by vm_compute. Qed.

(** The term "rust" is shared by the entries 1 and 2. *)
Lemma term_to_index_last_write_wins_witness :
  term_to_index ascii_lower shared_term_entries
  = Ok (<["rust" := 2%nat]> (<["rust" := 1%nat]> (<["go" := 0%nat]> ∅))) ∧
  (<["rust" := 2%nat]> (<["rust" := 1%nat]> (<["go" := 0%nat]> ∅)) : gmap string nat)
    !! "rust"
  = last_index ascii_lower "rust" shared_term_entries ∧
  last_index ascii_lower "rust" shared_term_entries = Some 2%nat.
Proof.
  split; [reflexivity|]. split; [|reflexivity].
  exact (proj1 (term_to_index_last_write_wins ascii_lower no_repr
                  shared_term_entries _ eq_refl) "rust").
Defined.

(** The second entry has no [related_concepts] key. *)
Lemma missing_related_concepts_witness :
  forallb (scannable ascii_lower)
    [entry "A" "first" "the first one" ["B"] []; unrelated_entry] = true ∧
  has_key "related_concepts" unrelated_entry = false ∧
  ∃ k, k ∈ entry_keys ∧
    build_graph ascii_lower no_repr
      (JArr [entry "A" "first" "the first one" ["B"] []; unrelated_entry])
    = Raise (KeyError k).
Proof.
  split; [reflexivity|]. split; [reflexivity|].
  exact (proj1 (proj2 (proj2 (proj2
    (missing_related_concepts ascii_lower no_repr (answers example_text)
       example_loads
       [entry "A" "first" "the first one" ["B"] []; unrelated_entry]
       unrelated_entry eq_refl
       (list_elem_of_further _ _ _ (list_elem_of_here _ _)) eq_refl))))).
Defined.

(** * Further examples *)

Lemma example_build :
  build_graph ascii_lower no_repr (JArr example_entries)
  = Ok (example_nodes, example_edges).
Proof. by vm_compute. Qed.

Lemma edge_synthesis_witness :
  build_graph ascii_lower no_repr (JArr example_entries)
  = Ok (example_nodes, example_edges) ∧
  ∃ cs, length example_edges = length cs ∧
    ∀ k, example_edges !! k
         = (λ c, Edge ("edge-" +:+ pretty k) (source c) (target c) true
                   (EdgeStyle "#3b82f6" 2) (explanation c)) <$> cs !! k.
Proof.
  split; [exact example_build|].
  destruct (edge_synthesis ascii_lower no_repr (JArr example_entries)
              example_nodes example_edges example_build)
    as (_ & _ & cs & _ & _ & _ & Hlen & Hk).
  exists cs. split; [exact Hlen | exact Hk].
Defined.

Lemma identifiers_distinct_witness :
  build_graph ascii_lower no_repr (JArr example_entries)
  = Ok (example_nodes, example_edges) ∧
  NoDup (node_id <$> example_nodes) ∧ NoDup (edge_id <$> example_edges).
Proof.
  split; [exact example_build|].
  exact (identifiers_distinct ascii_lower no_repr (JArr example_entries)
           example_nodes example_edges example_build).
Defined.

Lemma edges_join_nodes_witness :
  build_graph ascii_lower no_repr (JArr example_entries)
  = Ok (example_nodes, example_edges) ∧
  ∀ e, e ∈ example_edges →
    ∃ n1 n2, n1 ∈ example_nodes ∧ n2 ∈ example_nodes ∧
             node_id n1 = edge_source e ∧ node_id n2 = edge_target e.
Proof.
  split; [exact example_build|].
  exact (edges_join_nodes ascii_lower no_repr (JArr example_entries)
           example_nodes example_edges example_build).
Defined.

(** The only link of the entries Concept X, Other (related: concept x). *)
Lemma edge_from_mention_witness :
  term_to_index ascii_lower mixed_case_entries
  = Ok (<["other" := 1%nat]> (<["concept x" := 0%nat]> ∅)) ∧
  correlate ascii_lower no_repr
    (<["other" := 1%nat]> (<["concept x" := 0%nat]> ∅)) mixed_case_entries
  = Ok [Correlation "node-1" "node-0" "Other includes Concept X as a related concept";
        Correlation "node-1" "node-0" "Other includes concept x as a related concept"] ∧
  ∃ a b wa wb s,
    mixed_case_entries !! a = Some wa ∧ mixed_case_entries !! b = Some wb ∧
    a ≠ b ∧ "node-1" = "node-" +:+ pretty a ∧ "node-0" = "node-" +:+ pretty b ∧
    JStr s ∈ related_items wa ∧ term_key ascii_lower wb = Some (ascii_lower s).
Proof.
  split; [reflexivity|]. split; [reflexivity|].
  exact (edge_from_mention ascii_lower no_repr mixed_case_entries _ _
           (Correlation "node-1" "node-0"
              "Other includes Concept X as a related concept")
           eq_refl eq_refl (list_elem_of_here _ _)).
Defined.

Lemma mention_gives_edge_witness :
  forallb (scannable ascii_lower) mixed_case_entries = true ∧
  term_key ascii_lower (bare_entry "Concept X" []) = Some (ascii_lower "concept x") ∧
  ∃ cs, (term_to_index ascii_lower mixed_case_entries ≫= λ tti,
           correlate ascii_lower no_repr tti mixed_case_entries) = Ok cs ∧
        Correlation "node-1" "node-0"
          "Other includes Concept X as a related concept" ∈ cs.
Proof.
  split; [reflexivity|]. split; [reflexivity|].
  exact (mention_gives_edge ascii_lower no_repr mixed_case_entries 1 0
           (bare_entry "Other" ["concept x"]) (bare_entry "Concept X" [])
           "concept x" eq_refl eq_refl eq_refl (λ H, O_S _ (eq_sym H))
           (list_elem_of_here _ _) eq_refl).
Defined.

Lemma forward_has_reverse_twin_witness :
  forallb (scannable ascii_lower) mixed_case_entries = true ∧
  ∃ fs, forward_scan ascii_lower no_repr
          (<["other" := 1%nat]> (<["concept x" := 0%nat]> ∅)) 1
          (bare_entry "Other" ["concept x"]) [] = Ok fs ∧
    ∀ c, c ∈ fs →
      ∃ j wj rs c', mixed_case_entries !! j = Some wj ∧
        target c = "node-" +:+ pretty j ∧
        reverse_scan ascii_lower no_repr mixed_case_entries j wj [] = Ok rs ∧
        c' ∈ rs ∧ source c' = source c ∧ target c' = target c.
Proof.
  split; [reflexivity|].
  exact (forward_has_reverse_twin ascii_lower no_repr mixed_case_entries _ 1
           (bare_entry "Other" ["concept x"]) eq_refl eq_refl eq_refl).
Defined.

Lemma no_credential_witness :
  truthy ((∅ : gmap string string) !! "GOOGLE_API_KEY") = false ∧
  truthy ((∅ : gmap string string) !! "GEMINI_API_KEY") = false ∧
  generate_word_graph ascii_lower no_repr (answers example_text) example_loads
    (startup ∅) (Ok (JObj []))
  = Response
      (ErrorBody (ValueError "GOOGLE_API_KEY environment variable not set")) 500.
Proof.
  split; [reflexivity|]. split; [reflexivity|].
  exact (no_credential ascii_lower no_repr (answers example_text) example_loads
           ∅ [] eq_refl eq_refl).
Defined.

Lemma generation_failure_witness :
  truthy (environ example_process !! "GOOGLE_API_KEY") = true ∧
  generate_word_graph ascii_lower no_repr (raises "quota exceeded") example_loads
    example_process (Ok (JObj []))
  = Response
      (ErrorBody (ValueError "Error calling Gemini API: quota exceeded")) 500.
Proof.
  split; [reflexivity|].
  exact (generation_failure ascii_lower no_repr (raises "quota exceeded")
           example_loads example_process [] eq_refl).
Defined.


Lemma handler_succeeds_witness :
  truthy (environ example_process !! "GOOGLE_API_KEY") = true ∧
  json_match example_text = Some example_span ∧
  forallb (scannable ascii_lower) example_entries = true ∧
  forallb complete example_entries = true ∧
  ∃ nodes edges,
    generate_word_graph ascii_lower no_repr (answers example_text) example_loads
      example_process (Ok (JObj []))
    = Response (Graph nodes edges) 200 ∧
    length nodes = length example_entries.
Proof.
  split; [reflexivity|]. split; [reflexivity|]. split; [reflexivity|].
  split; [reflexivity|].
  refine (handler_succeeds ascii_lower no_repr (answers example_text)
            example_loads example_process [] example_text example_span
            [("words", JArr example_entries)] example_entries
            eq_refl eq_refl _ eq_refl eq_refl eq_refl eq_refl eq_refl).
  discriminate.
Defined.

(** A body that is JSON [null]. *)
Lemma non_object_body_fails_witness :
  (∀ items, Ok JNull ≠ Ok (JObj items)) ∧
  ∃ e, generate_word_graph ascii_lower no_repr (answers example_text)
         example_loads example_process (Ok JNull)
       = Response (ErrorBody e) 500.
Proof.
  split; [discriminate|].
  exact (non_object_body_fails ascii_lower no_repr (answers example_text)
           example_loads example_process (Ok JNull) (λ items H, ltac:(discriminate))).
Defined.
